(** * Injury-risk estimator and risk-chain search (src/unnamed/part_002)

    A shallow embedding of the estimator core of the dashboard script:
    [hashStr], [featureIndices], [sigmoid], [trainEstimator],
    [predictEstimator], [buildDomains], [supportCount] and [greedyChain].

    JS strings are modelled as lists of UTF-16 code units ([jsstr]).
    JS numbers are modelled by [jsnum]: a finite value is an exact real,
    and NaN and the two infinities are kept as separate constructors with
    their IEEE propagation rules.  Rounding is not modelled, and neither are
    signed zeros: a zero is read as +0. *)

From Stdlib Require Import ZArith List String Ascii Reals Lra Lia Sorted Permutation.
From stdpp Require Import base list.

Import ListNotations.
Local Open Scope Z_scope.

(** ** JS strings *)

Definition jsstr := list Z.

(** ASCII literal to UTF-16 code units. *)
Definition u (s : string) : jsstr :=
  map (fun a => Z.of_nat (nat_of_ascii a)) (list_ascii_of_string s).

(** The multiplication sign U+00D7 used in the interaction keys. *)
Definition times_sign : jsstr := [215].

(** [String(n)] for an integer [n]. *)
Fixpoint digits_aux (fuel : nat) (n : Z) (acc : jsstr) : jsstr :=
  match fuel with
  | O => acc
  | S f =>
      let acc' := (48 + n mod 10) :: acc in
      if n <? 10 then acc' else digits_aux f (n / 10) acc'
  end.

Definition string_of_Z (n : Z) : jsstr :=
  if n <? 0 then u "-" ++ digits_aux (S (Z.to_nat (Z.log2 (- n)))) (- n) []
  else digits_aux (S (Z.to_nat (Z.log2 n))) n [].

(** ** Rows and selections

    A selection (the estimator's [choice], the chain search's [sel]) has the
    five categorical fields; [null] is [None].  A row adds the label. *)

Record sel := mkSel {
  vehicleType : option jsstr;
  preCrash : option jsstr;
  borough : option jsstr;
  hour : option Z;
  dow : option Z
}.

Record row := mkRow {
  r_vehicleType : option jsstr;
  r_preCrash : option jsstr;
  r_borough : option jsstr;
  r_hour : option Z;
  r_dow : option Z;
  injured : bool
}.

Definition row_sel (r : row) : sel :=
  mkSel (r_vehicleType r) (r_preCrash r) (r_borough r) (r_hour r) (r_dow r).

Definition empty_sel : sel := mkSel None None None None None.

(** [x || ''] on a nullable string. *)
Definition or_empty (o : option jsstr) : jsstr :=
  match o with Some s => s | None => [] end.

(** JS truthiness of a nullable string. *)
Definition truthy (o : option jsstr) : bool :=
  match o with Some (_ :: _) => true | _ => false end.

(** ** Feature hasher *)

(** [ToInt32]. *)
Definition toInt32 (x : Z) : Z :=
  let m := x mod 2 ^ 32 in
  if m >=? 2 ^ 31 then m - 2 ^ 32 else m.

(** One iteration of [h = ((h << 5) + h) + s.charCodeAt(i)]: the shift
    works on the int32 image of [h], the additions on the full value.
    [h] stays an exact integer for strings of up to about four million code
    units, which is where the exact model of the addition is faithful. *)
Definition hash_step (h c : Z) : Z := toInt32 (toInt32 h * 2 ^ 5) + h + c.

Definition hashStr (s : jsstr) (D : Z) : Z :=
  Z.abs (fold_left hash_step s 5381) mod D.

(** [idx.add(i)] on a JS [Set] kept in insertion order. *)
Definition set_add (i : Z) (idx : list Z) : list Z :=
  if existsb (Z.eqb i) idx then idx else idx ++ [i].

Definition is_skipped (v : jsstr) : bool :=
  bool_decide (v = []) || bool_decide (v = u "Unspecified").

(** The local closure [add(k, v)]; [v] is never null at its call sites. *)
Definition add_key (D : Z) (k v : jsstr) (idx : list Z) : list Z :=
  if is_skipped v then idx else set_add (hashStr (k ++ u "=" ++ v) D) idx.

Definition featureIndices (c : sel) (D : Z) : list Z :=
  let idx := [] in
  let idx := add_key D (u "veh") (or_empty (vehicleType c)) idx in
  let idx := add_key D (u "act") (or_empty (preCrash c)) idx in
  let idx := add_key D (u "bor") (or_empty (borough c)) idx in
  let idx := match hour c with
             | Some h => add_key D (u "hour") (string_of_Z h) idx
             | None => idx end in
  let idx := match dow c with
             | Some d => add_key D (u "dow") (string_of_Z d) idx
             | None => idx end in
  let idx := match preCrash c, hour c with
             | Some a, Some h =>
                 if truthy (Some a)
                 then add_key D (u "actxhour") (a ++ times_sign ++ string_of_Z h) idx
                 else idx
             | _, _ => idx end in
  let idx := match preCrash c, dow c with
             | Some a, Some d =>
                 if truthy (Some a)
                 then add_key D (u "actxdow") (a ++ times_sign ++ string_of_Z d) idx
                 else idx
             | _, _ => idx end in
  let idx := match vehicleType c, preCrash c with
             | Some v, Some a =>
                 if truthy (Some v) && truthy (Some a)
                 then add_key D (u "vehxact") (v ++ times_sign ++ a) idx
                 else idx
             | _, _ => idx end in
  idx.

(** ** JS numbers *)

Inductive jsnum := Fin (r : R) | NaN | PInf | NInf.

Local Open Scope R_scope.

Definition jneg (x : jsnum) : jsnum :=
  match x with Fin a => Fin (- a) | NaN => NaN | PInf => NInf | NInf => PInf end.

Definition jadd (x y : jsnum) : jsnum :=
  match x, y with
  | Fin a, Fin b => Fin (a + b)
  | NaN, _ | _, NaN => NaN
  | PInf, NInf | NInf, PInf => NaN
  | PInf, _ | _, PInf => PInf
  | NInf, _ | _, NInf => NInf
  end.

Definition jsub (x y : jsnum) : jsnum := jadd x (jneg y).

(** Sign of a nonzero finite factor against an infinite one. *)
Definition inf_times (a : R) (pos : bool) : jsnum :=
  if Rlt_dec 0 a then (if pos then PInf else NInf)
  else if Rlt_dec a 0 then (if pos then NInf else PInf)
  else NaN.

Definition jmul (x y : jsnum) : jsnum :=
  match x, y with
  | Fin a, Fin b => Fin (a * b)
  | NaN, _ | _, NaN => NaN
  | Fin a, PInf | PInf, Fin a => inf_times a true
  | Fin a, NInf | NInf, Fin a => inf_times a false
  | PInf, PInf | NInf, NInf => PInf
  | PInf, NInf | NInf, PInf => NInf
  end.

Definition jdiv (x y : jsnum) : jsnum :=
  match x, y with
  | Fin a, Fin b =>
      if Req_EM_T b 0 then inf_times a true else Fin (a / b)
  | NaN, _ | _, NaN => NaN
  | Fin _, PInf | Fin _, NInf => Fin 0
  | PInf, Fin b => if Rle_dec 0 b then PInf else NInf
  | NInf, Fin b => if Rle_dec 0 b then NInf else PInf
  | _, _ => NaN
  end.

(** [Math.exp] and [Math.log]. *)
Definition jexp (x : jsnum) : jsnum :=
  match x with Fin a => Fin (exp a) | NaN => NaN | PInf => PInf | NInf => Fin 0 end.

Definition jlog (x : jsnum) : jsnum :=
  match x with
  | Fin a => if Rlt_dec 0 a then Fin (ln a)
             else if Req_EM_T a 0 then NInf else NaN
  | PInf => PInf
  | NaN | NInf => NaN
  end.

(** [x < y] on numbers that are not NaN; false as soon as one is NaN. *)
Definition jlt (x y : jsnum) : bool :=
  match x, y with
  | Fin a, Fin b => if Rlt_dec a b then true else false
  | NInf, Fin _ | NInf, PInf | Fin _, PInf => true
  | _, _ => false
  end.

Definition jle (x y : jsnum) : bool :=
  match x, y with
  | NaN, _ | _, NaN => false
  | _, _ => negb (jlt y x)
  end.

(** [Math.min] and [Math.max] of two numbers. *)
Definition jmin (x y : jsnum) : jsnum :=
  match x, y with
  | NaN, _ | _, NaN => NaN
  | _, _ => if jlt y x then y else x
  end.

Definition jmax (x y : jsnum) : jsnum :=
  match x, y with
  | NaN, _ | _, NaN => NaN
  | _, _ => if jlt x y then y else x
  end.

Definition num_of_nat (n : nat) : jsnum := Fin (INR n).

(** ** Estimator *)

(** [function sigmoid(z) { return 1 / (1 + Math.exp(-Math.max(-30, Math.min(30, z)))); }] *)
Definition sigmoid (z : jsnum) : jsnum :=
  jdiv (Fin 1) (jadd (Fin 1) (jexp (jneg (jmax (Fin (-30)) (jmin (Fin 30) z))))).

(** A [Float64Array] read [w[i]]: out of range it is [undefined], which
    turns the surrounding arithmetic into NaN. *)
Definition read (w : list jsnum) (i : Z) : jsnum :=
  if Z.ltb i 0 then NaN
  else match w !! Z.to_nat i with Some x => x | None => NaN end.

(** A [Float64Array] write [w[i] = v]: ignored out of range. *)
Definition write (w : list jsnum) (i : Z) (v : jsnum) : list jsnum :=
  if Z.ltb i 0 then w else <[Z.to_nat i := v]> w.

(** [let z = b; for (k ...) z += w[idx[k]];] *)
Definition dot (w : list jsnum) (idx : list Z) (b : jsnum) : jsnum :=
  fold_left (fun z i => jadd z (read w i)) idx b.

(** The trained model [{ D, w, b, baseRate }]; [null] is [None]. *)
Record model := mkModel {
  mD : Z;
  mw : list jsnum;
  mb : jsnum;
  mbaseRate : jsnum
}.

Definition predictEstimator (m : option model) (c : sel) : option jsnum :=
  match m with
  | None => None
  | Some m =>
      let idx := featureIndices c (mD m) in
      let z := dot (mw m) idx (mb m) in
      let p := sigmoid z in
      Some (jmax (Fin 0) (jmin (Fin 1) p))
  end.

Definition lr0 : jsnum := Fin (2 / 10).
Definition lambda : jsnum := Fin (1 / 1000).
Definition epochs : nat := 3.
Definition eps : jsnum := Fin (1 / 1000000).

(** The SGD state: the weight array and the bias. *)
Record tstate := mkTstate { tw : list jsnum; tb : jsnum }.

(** [w[j] = w[j] * (1 - lr * lambda) - lr * g] *)
Definition update_w (lr g : jsnum) (w : list jsnum) (j : Z) : list jsnum :=
  write w j (jsub (jmul (read w j) (jsub (Fin 1) (jmul lr lambda))) (jmul lr g)).

(** [lr0 / (1 + ep)] *)
Definition lr_of (ep : nat) : jsnum := jdiv lr0 (jadd (Fin 1) (num_of_nat ep)).

(** The body of the inner loop, for the example [(Xidx[i], y[i])]. *)
Definition sgd_step (ep : nat) (st : tstate) (xy : list Z * jsnum) : tstate :=
  let (idx, yi) := xy in
  let z := dot (tw st) idx (tb st) in
  let p := sigmoid z in
  let g := jsub p yi in
  let lr := lr_of ep in
  let b := jsub (tb st) (jmul lr g) in
  let w := fold_left (update_w lr g) idx (tw st) in
  mkTstate w b.

Definition run_epoch (data : list (list Z * jsnum)) (st : tstate) (ep : nat) : tstate :=
  fold_left (sgd_step ep) data st.

Definition label (r : row) : jsnum := if injured r then Fin 1 else Fin 0.

Definition trainEstimator (rows : list row) (D : Z) : option model :=
  let N := length rows in
  match N with
  | O => None
  | S _ =>
      let injuredTotal := fold_left (fun acc r => jadd acc (label r)) rows (Fin 0) in
      let baseRate := jdiv injuredTotal (jmax (Fin 1) (num_of_nat N)) in
      let w := repeat (Fin 0) (Z.to_nat D) in
      let b := jlog (jdiv (jadd baseRate eps) (jadd (jsub (Fin 1) baseRate) eps)) in
      let Xidx := map (fun r => featureIndices (row_sel r) D) rows in
      let y := map label rows in
      let st := fold_left (run_epoch (combine Xidx y)) (seq 0 epochs) (mkTstate w b) in
      Some (mkModel D (tw st) (tb st) baseRate)
  end.

(** ** Domain table *)

Local Open Scope Z_scope.

(** The code units removed by [String.prototype.trim]: WhiteSpace and
    LineTerminator. *)
Definition is_ws (c : Z) : bool :=
  existsb (Z.eqb c) [9; 10; 11; 12; 13; 32; 160; 5760; 8232; 8233; 8239; 8287; 12288; 65279]
  || ((8192 <=? c) && (c <=? 8202)).

Fixpoint drop_ws (s : jsstr) : jsstr :=
  match s with
  | c :: t => if is_ws c then drop_ws t else s
  | [] => []
  end.

Definition trim (s : jsstr) : jsstr := rev (drop_ws (rev (drop_ws s))).

(** [const v = (r[key] || '').trim(); if (!v || v === 'Unspecified' || ...) return;] *)
Definition cleaned (o : option jsstr) : option jsstr :=
  let v := trim (or_empty o) in
  if bool_decide (v = []) || bool_decide (v = u "Unspecified")
     || bool_decide (v = u "NA") || bool_decide (v = u "Unknown")
  then None else Some v.

(** [m.set(v, (m.get(v) || 0) + 1)] on a [Map], kept in insertion order. *)
Fixpoint bump (v : jsstr) (m : list (jsstr * nat)) : list (jsstr * nat) :=
  match m with
  | [] => [(v, 1%nat)]
  | (k, n) :: t => if bool_decide (k = v) then (k, S n) :: t else (k, n) :: bump v t
  end.

Definition count_map (key : row -> option jsstr) (arr : list row) : list (jsstr * nat) :=
  fold_left (fun m r => match cleaned (key r) with Some v => bump v m | None => m end) arr [].

(** [.sort((a,b) => b[1] - a[1])]: [Array.prototype.sort] is stable, so
    its result is the one ordering by decreasing count that keeps entries
    of equal count in map order; insertion sort computes that ordering. *)
Fixpoint insert_desc (x : jsstr * nat) (l : list (jsstr * nat)) : list (jsstr * nat) :=
  match l with
  | [] => [x]
  | y :: t => if (snd y <=? snd x)%nat then x :: l else y :: insert_desc x t
  end.

Fixpoint sort_desc (l : list (jsstr * nat)) : list (jsstr * nat) :=
  match l with
  | [] => []
  | x :: t => insert_desc x (sort_desc t)
  end.

Definition byCount (arr : list row) (key : row -> option jsstr) : list jsstr :=
  map fst (sort_desc (count_map key arr)).

Record domains := mkDomains {
  d_vehicleType : list jsstr;
  d_preCrash : list jsstr;
  d_borough : list jsstr;
  d_hour : list Z;
  d_dow : list Z
}.

(** [d3.range(0, 24)] *)
Definition range_hours : list Z := map Z.of_nat (List.seq 0 24).

Definition buildDomains (rows : list row) : domains :=
  mkDomains (firstn 12 (byCount rows r_vehicleType))
            (firstn 12 (byCount rows r_preCrash))
            (firstn 6 (byCount rows r_borough))
            range_hours
            [1; 2; 3; 4; 5; 6; 0].

(** ** Risk chains *)

(** The record filter of [supportCount]: a truthy string field of [sel]
    or a finite number field constrains the row by strict equality. *)
Definition str_ok (c rv : option jsstr) : bool :=
  if truthy c then bool_decide (rv = c) else true.

Definition num_ok (c rv : option Z) : bool :=
  match c with Some h => bool_decide (rv = Some h) | None => true end.

Definition matches (s : sel) (r : row) : bool :=
  str_ok (vehicleType s) (r_vehicleType r) && str_ok (preCrash s) (r_preCrash r)
  && str_ok (borough s) (r_borough r) && num_ok (hour s) (r_hour r)
  && num_ok (dow s) (r_dow r).

Definition supportCount (rows : list row) (s : sel) : nat :=
  length (List.filter (matches s) rows).

Inductive field := FvehicleType | FpreCrash | Fborough | Fhour | Fdow.

Inductive value := VStr (s : jsstr) | VNum (n : Z).

(** [const fields = ['vehicleType','preCrash','borough','hour','dow'];] *)
Definition fields : list field := [FvehicleType; FpreCrash; Fborough; Fhour; Fdow].

(** [sel[f] != null] *)
Definition sel_is_set (s : sel) (f : field) : bool :=
  match f with
  | FvehicleType => bool_decide (is_Some (vehicleType s))
  | FpreCrash => bool_decide (is_Some (preCrash s))
  | Fborough => bool_decide (is_Some (borough s))
  | Fhour => bool_decide (is_Some (hour s))
  | Fdow => bool_decide (is_Some (dow s))
  end.

(** [{ ...sel, [f]: v }]; the domain table is typed, so a string field
    only ever receives a string and a number field a number (the other
    pairs leave [sel] as it is and are never reached). *)
Definition sel_set (s : sel) (f : field) (v : value) : sel :=
  match f, v with
  | FvehicleType, VStr x => mkSel (Some x) (preCrash s) (borough s) (hour s) (dow s)
  | FpreCrash, VStr x => mkSel (vehicleType s) (Some x) (borough s) (hour s) (dow s)
  | Fborough, VStr x => mkSel (vehicleType s) (preCrash s) (Some x) (hour s) (dow s)
  | Fhour, VNum n => mkSel (vehicleType s) (preCrash s) (borough s) (Some n) (dow s)
  | Fdow, VNum n => mkSel (vehicleType s) (preCrash s) (borough s) (hour s) (Some n)
  | _, _ => s
  end.

(** [domains[f] || []] *)
Definition domain_values (d : domains) (f : field) : list value :=
  match f with
  | FvehicleType => map VStr (d_vehicleType d)
  | FpreCrash => map VStr (d_preCrash d)
  | Fborough => map VStr (d_borough d)
  | Fhour => map VNum (d_hour d)
  | Fdow => map VNum (d_dow d)
  end.

(** A chain step [{ label, field, value, p, n, delta }]; the display label
    is not modelled.  The Start step has no field, value or delta. *)
Record step := mkStep {
  sfield : option field;
  svalue : option value;
  sp : jsnum;
  sn : nat;
  sdelta : option jsnum
}.

(** The running best candidate [{ field, value, p, n, delta, score }]. *)
Record cand := mkCand {
  cfield : field;
  cvalue : value;
  cp : jsnum;
  cn : nat;
  cdelta : jsnum;
  cscore : jsnum
}.

Definition nullish {A} (o : option A) (d : A) : A :=
  match o with Some x => x | None => d end.

Record chain_opts := mkOpts {
  o_maxDepth : option nat;
  o_minSupport : option Z;
  o_minDelta : option jsnum
}.

Section Chain.
Variable rows : list row.
Variable m : option model.
Variable d : domains.
Variable worst : bool.          (* direction === 'worst' *)
Variable minSupport : Z.
Variable minDelta : jsnum.

(** One iteration of the inner [for (const v of candidates)] loop. *)
Definition consider (s : sel) (pCurr : jsnum) (f : field)
           (best : option cand) (v : value) : option cand :=
  let trial := sel_set s f v in
  let n := supportCount rows trial in
  if Z.ltb (Z.of_nat n) minSupport then best else
  match predictEstimator m trial with
  | None => best
  | Some p =>
      let delta := jsub p pCurr in
      let score := if worst then delta else jneg delta in
      match best with
      | None => Some (mkCand f v p n delta score)
      | Some b => if jlt (cscore b) score then Some (mkCand f v p n delta score) else best
      end
  end.

(** The two nested loops over the unassigned fields and their values. *)
Definition search (s : sel) (pCurr : jsnum) : option cand :=
  fold_left (fun best f =>
               if sel_is_set s f then best
               else fold_left (consider s pCurr f) (domain_values d f) best)
            fields None.

(** [for (let d = 0; d < maxDepth; d++) { ... }] with the remaining
    iterations as fuel. *)
Fixpoint chain_loop (fuel : nat) (s : sel) (pCurr : jsnum) (steps : list step)
  : list step :=
  match fuel with
  | O => steps
  | S k =>
      match search s pCurr with
      | None => steps
      | Some b =>
          let improve := if worst then jle minDelta (cdelta b)
                         else jle minDelta (jneg (cdelta b)) in
          if negb improve then steps
          else chain_loop k (sel_set s (cfield b) (cvalue b)) (cp b)
                 (steps ++ [mkStep (Some (cfield b)) (Some (cvalue b)) (cp b) (cn b)
                                   (Some (cdelta b))])
      end
  end.
End Chain.

(** [greedyChain(rows, model, domains, direction, opts)]; a negative
    [maxDepth] runs no iteration, which the depth bound as [nat] leaves out. *)
Definition greedyChain (rows : list row) (m : option model) (d : domains)
           (direction : string) (opts : chain_opts) : list step :=
  let maxDepth := nullish (o_maxDepth opts) 5%nat in
  let minSupport := nullish (o_minSupport opts) 80 in
  let minDelta := nullish (o_minDelta opts) (Fin (1 / 1000)) in
  let worst := String.eqb direction "worst" in
  let pCurr := nullish (predictEstimator m empty_sel)
                       (match m with Some mm => mbaseRate mm | None => Fin 0 end) in
  chain_loop rows m d worst minSupport minDelta maxDepth empty_sel pCurr
             [mkStep None None pCurr (length rows) None].

(** ** Helpers for the proofs *)

Local Open Scope R_scope.

(** The real function computed by [sigmoid] on a finite argument. *)
Definition sigR (z : R) : R := 1 / (1 + exp (- Rmax (-30) (Rmin 30 z))).

Definition is_fin (x : jsnum) : Prop := exists r, x = Fin r.

Definition in_range (D : Z) (i : Z) : Prop := (0 <= i < D)%Z.

(** A training example: active indices in range and a finite label. *)
Definition data_ok (D : Z) (xy : list Z * jsnum) : Prop :=
  Forall (in_range D) (fst xy) /\ is_fin (snd xy).

(** The value an active weight takes in one SGD step. *)
Definition upd (lr g x : jsnum) : jsnum :=
  jsub (jmul x (jsub (Fin 1) (jmul lr lambda))) (jmul lr g).

(** The invariant of the SGD state: [D] weights, all finite, finite bias. *)
Definition tinv (D : Z) (st : tstate) : Prop :=
  length (tw st) = Z.to_nat D /\ Forall is_fin (tw st) /\ is_fin (tb st).

(** ** Reference trainer, written from the spec's description

    "baseRate = fraction of records with injured true; bias initialized to
    log((baseRate + 1e-6) / (1 - baseRate + 1e-6)); all weights 0; for each
    of 3 epochs, in the order supplied, z = bias + sum of the weights at the
    active indices, p = sigmoid(z), gradient = p - label,
    bias -= lr * gradient, each active weight becomes
    weight * (1 - lr * 1e-3) - lr * gradient, lr = 0.2 / (1 + epochIndex)." *)

Definition ref_lr (ep : nat) : jsnum := Fin (2 / 10 / (1 + INR ep)).

Definition ref_sum (xs : list jsnum) : jsnum := fold_left jadd xs (Fin 0).

(** Every active weight updated at once, the others kept. *)
Definition ref_update (active : list Z) (lr g : jsnum) (w : list jsnum) : list jsnum :=
  imap (fun j x =>
          if bool_decide (Z.of_nat j ∈ active)
          then jsub (jmul x (jsub (Fin 1) (jmul lr (Fin (1 / 1000))))) (jmul lr g)
          else x) w.

Definition ref_step (D : Z) (ep : nat) (st : tstate) (r : row) : tstate :=
  let active := featureIndices (row_sel r) D in
  let z := jadd (tb st) (ref_sum (map (read (tw st)) active)) in
  let p := sigmoid z in
  let g := jsub p (if injured r then Fin 1 else Fin 0) in
  let lr := ref_lr ep in
  mkTstate (ref_update active lr g (tw st)) (jsub (tb st) (jmul lr g)).

Definition ref_baseRate (rows : list row) : jsnum :=
  Fin (INR (length (List.filter injured rows)) / INR (length rows)).

Definition ref_bias0 (rows : list row) : jsnum :=
  jlog (jdiv (jadd (ref_baseRate rows) (Fin (1 / 1000000)))
             (jadd (jsub (Fin 1) (ref_baseRate rows)) (Fin (1 / 1000000)))).

Definition train_reference (rows : list row) (D : Z) : model :=
  let st0 := mkTstate (repeat (Fin 0) (Z.to_nat D)) (ref_bias0 rows) in
  let st := fold_left (fun st ep => fold_left (ref_step D ep) rows st) [0; 1; 2]%nat st0 in
  mkModel D (tw st) (tb st) (ref_baseRate rows).

(** ** Chain predicates *)

(** A value of the right kind for the field. *)
Definition value_fits (f : field) (v : value) : Prop :=
  match f, v with
  | FvehicleType, VStr _ | FpreCrash, VStr _ | Fborough, VStr _ => True
  | Fhour, VNum _ | Fdow, VNum _ => True
  | _, _ => False
  end.

(** The values [predictEstimator] can return: NaN or a number in [0, 1]. *)
Definition pval (x : jsnum) : Prop := x = NaN \/ exists r, x = Fin r /\ 0 <= r <= 1.

(** [a] and [b] are finite and [a <= b]. *)
Definition num_le (a b : jsnum) : Prop := exists x y, a = Fin x /\ b = Fin y /\ x <= y.

Fixpoint adjacent {A} (R : A -> A -> Prop) (l : list A) : Prop :=
  match l with
  | x :: ((y :: _) as t) => R x y /\ adjacent R t
  | _ => True
  end.

Definition dir_ok (worst : bool) (a b : step) : Prop :=
  if worst then num_le (sp a) (sp b) else num_le (sp b) (sp a).

Definition dummy_step : step := mkStep None None NaN 0 None.

Definition cand_ok (rows : list row) (m : option model) (minSupport : Z) (s : sel)
           (pCurr : jsnum) (c : cand) : Prop :=
  sel_is_set s (cfield c) = false /\ value_fits (cfield c) (cvalue c) /\
  cn c = supportCount rows (sel_set s (cfield c) (cvalue c)) /\
  (minSupport <= Z.of_nat (cn c))%Z /\
  cdelta c = jsub (cp c) pCurr /\
  predictEstimator m (sel_set s (cfield c) (cvalue c)) = Some (cp c).

(** The invariant of the depth loop of [greedyChain]: the Start step,
    then one step per assigned field, with support at least [minSupport]
    and non-increasing along the chain. *)
Definition chain_inv (rows : list row) (minSupport : Z) (s : sel) (steps : list step) : Prop :=
  (exists st0 rest fs,
      steps = st0 :: rest /\ sfield st0 = None /\ sn st0 = length rows /\
      map sfield rest = map Some fs /\ NoDup fs /\
      (forall f, sel_is_set s f = true <-> In f fs) /\
      Forall (fun st => (minSupport <= Z.of_nat (sn st))%Z) rest) /\
  (supportCount rows s <= sn (List.last steps dummy_step))%nat /\
  adjacent (fun a b => (sn b <= sn a)%nat) steps.

(** The probabilities along the chain follow the direction. *)
Definition chain_dir (worst : bool) (pCurr : jsnum) (steps : list step) : Prop :=
  sp (List.last steps dummy_step) = pCurr /\ pval pCurr /\ adjacent (dir_ok worst) steps.

(** ** Domain ranking, as the spec describes it

    "An ordered sequence of its most frequent non-null values
    (frequency-ranked, ties broken by first-encountered order), capped at a
    configurable count per field."  The values of a field are those that
    survive [cleaned], in record order. *)

Fixpoint vals (key : row -> option jsstr) (arr : list row) : list jsstr :=
  match arr with
  | [] => []
  | r :: t => match cleaned (key r) with Some v => v :: vals key t | None => vals key t end
  end.

(** Number of occurrences of [x] in [vs]. *)
Definition cnt (vs : list jsstr) (x : jsstr) : nat :=
  length (List.filter (fun y => bool_decide (y = x)) vs).

(** The distinct values of [vs] in first-encountered order. *)
Definition first_seen (vs : list jsstr) : list jsstr :=
  fold_left (fun acc v => if bool_decide (v ∈ acc) then acc else acc ++ [v]) vs [].

(** [a] comes before [b] in [l]. *)
Definition before {A} (l : list A) (a b : A) : Prop :=
  exists l1 l2, l = l1 ++ a :: l2 /\ In b l2.

(** [L] is the top [k] of the distinct values of [vs], ranked by decreasing
    count, ties in first-encountered order. *)
Definition ranked (k : nat) (vs : list jsstr) (L : list jsstr) : Prop :=
  exists full,
    L = firstn k full /\ Permutation full (first_seen vs) /\
    forall i j a b, (i < j)%nat -> nth_error full i = Some a -> nth_error full j = Some b ->
      (cnt vs b < cnt vs a)%nat \/ (cnt vs a = cnt vs b /\ before (first_seen vs) a b).

(** The counts of [vs] as a [Map] in insertion order. *)
Definition counts (vs : list jsstr) : list (jsstr * nat) :=
  map (fun x => (x, cnt vs x)) (first_seen vs).

(** The order [sort_desc] produces on the entries of [l]. *)
Definition entry_before (l : list (jsstr * nat)) (a b : jsstr * nat) : Prop :=
  (snd b < snd a)%nat \/ (snd a = snd b /\ before (map fst l) (fst a) (fst b)).

(** ** The four-record training example *)

Definition veh_row (v : string) (inj : bool) : row :=
  mkRow (Some (u v)) None None None None inj.

Definition example_rows : list row :=
  [veh_row "Sedan" true; veh_row "Sedan" false; veh_row "Truck" true; veh_row "Truck" true].

Definition veh_query (v : string) : sel := mkSel (Some (u v)) None None None None.

(** The learning rate of epoch [ep] as a real. *)
Definition lr_real (ep : nat) : R := 2 / 10 / (1 + INR ep).

(** A 1024-weight state with bias [b], [w[272] = s] (bucket of
    "veh=Sedan") and [w[782] = t] (bucket of "veh=Truck"). *)
Definition st3 (st : tstate) (b s t : R) : Prop :=
  length (tw st) = 1024%nat /\ tb st = Fin b /\
  read (tw st) 272 = Fin s /\ read (tw st) 782 = Fin t.

(** ** Further code of the dashboard script *)

(** [function ebShrink(a, n, baseRate, k = 50) { return (a + k * baseRate) / (n + k); }] *)
Definition ebShrink (a n baseRate k : jsnum) : jsnum :=
  jdiv (jadd a (jmul k baseRate)) (jadd n k).

(** [cleanCat(s)] on a nullable string. *)
Definition cleanCat (o : option jsstr) : option jsstr :=
  match o with
  | None => None
  | Some s =>
      let t := trim s in
      if bool_decide (t = []) || bool_decide (t = u "Unspecified")
         || bool_decide (t = u "NA") || bool_decide (t = u "Unknown")
      then None else Some t
  end.

(** [String.prototype.startsWith] and [includes] on code units. *)
Fixpoint starts_with (s pat : jsstr) : bool :=
  match pat, s with
  | [], _ => true
  | c :: pt, d :: st => Z.eqb c d && starts_with st pt
  | _ :: _, [] => false
  end.

Fixpoint includes (s pat : jsstr) : bool :=
  starts_with s pat || match s with [] => false | _ :: t => includes t pat end.

(** [normalizeVehicleLabel(s)] on a nullable string, for a given
    [String.prototype.toLowerCase] ([lower]). *)
Definition normalizeVehicleLabel (lower : jsstr -> jsstr) (o : option jsstr) : option jsstr :=
  match o with
  | None => None
  | Some s =>
      let t := trim s in
      if bool_decide (t = []) then None else
      let l := lower t in
      if includes l (u "station wagon") || includes l (u "sport utility")
         || includes l (u "sport-utility")
         || (includes l (u "sport") && includes l (u "utility")) || includes l (u "suv")
      then Some (u "SUV") else Some t
  end.

Section Points.
(** A map point; [p_hour] is its [hour] property, [None] when null or
    missing. *)
Variable point : Type.
Variable p_hour : point -> option jsnum.

(** [p && Number.isFinite(p.hour) && p.hour === hour] for a finite [hour]. *)
Definition at_hour (h : R) (p : option point) : bool :=
  match p with
  | Some pt => match p_hour pt with
               | Some (Fin a) => if Req_EM_T a h then true else false
               | _ => false
               end
  | None => false
  end.

(** [filterPointsByHour(arr, hour)]; a null [arr] is [None]. *)
Definition filterPointsByHour (arr : option (list (option point))) (hour : option jsnum)
  : list (option point) :=
  match arr with
  | None => []
  | Some [] => []
  | Some l =>
      match hour with
      | Some (Fin h) => List.filter (at_hour h) l
      | _ => l
      end
  end.
End Points.

Arguments at_hour {point} p_hour h p.
Arguments filterPointsByHour {point} p_hour arr hour.

(** The selection made by the steps of a chain, applied in order. *)
Definition sel_of (steps : list step) : sel :=
  fold_left (fun s st => match sfield st, svalue st with
                         | Some f, Some v => sel_set s f v
                         | _, _ => s
                         end) steps empty_sel.

(** The links of a chain: each step after the Start one assigns a field a
    value of the field's domain, and its support, probability and delta are
    those of the selection made by the steps up to it. *)
Definition chain_links (rows : list row) (m : option model) (d : domains)
           (steps : list step) : Prop :=
  forall k a b, nth_error steps k = Some a -> nth_error steps (S k) = Some b ->
    exists f v, sfield b = Some f /\ svalue b = Some v /\ In v (domain_values d f) /\
      sn b = supportCount rows (sel_of (firstn (S (S k)) steps)) /\
      predictEstimator m (sel_of (firstn (S (S k)) steps)) = Some (sp b) /\
      sdelta b = Some (jsub (sp b) (sp a)).

(** The option lists of [populateEstimatorOptions(rows)] (the select
    elements they fill are not modelled). *)
Definition estimator_options (rows : list row) : domains :=
  mkDomains (firstn 25 (byCount rows r_vehicleType))
            (firstn 25 (byCount rows r_preCrash))
            (firstn 10 (byCount rows r_borough))
            range_hours
            [1; 2; 3; 4; 5; 6; 0]%Z.

(** An ASCII [toLowerCase], used to instantiate [normalizeVehicleLabel]. *)
Definition ascii_lower (s : jsstr) : jsstr :=
  map (fun c => if (65 <=? c)%Z && (c <=? 90)%Z then (c + 32)%Z else c) s.

(** * Proofs *)

(** ** Arithmetic on finite numbers *)

Lemma jmin_fin a b : jmin (Fin a) (Fin b) = Fin (Rmin a b).
Proof.
  unfold jmin, jlt, Rmin.
  destruct (Rlt_dec b a), (Rle_dec a b); f_equal; lra.
Qed.

Lemma jmax_fin a b : jmax (Fin a) (Fin b) = Fin (Rmax a b).
Proof.
  unfold jmax, jlt, Rmax.
  destruct (Rlt_dec a b), (Rle_dec a b); f_equal; lra.
Qed.

Lemma jdiv_fin a b : b <> 0 -> jdiv (Fin a) (Fin b) = Fin (a / b).
Proof.
  intros Hb. unfold jdiv. destruct (Req_EM_T b 0); [contradiction | reflexivity].
Qed.

Lemma jlog_fin a : 0 < a -> jlog (Fin a) = Fin (ln a).
Proof.
  intros Ha. unfold jlog. destruct (Rlt_dec 0 a); [reflexivity | lra].
Qed.

Lemma sigmoid_fin z : sigmoid (Fin z) = Fin (sigR z).
Proof.
  unfold sigmoid. rewrite jmin_fin, jmax_fin. cbn [jneg jexp jadd].
  rewrite jdiv_fin; [reflexivity|].
  pose proof (exp_pos (- Rmax (-30) (Rmin 30 z))). lra.
Qed.

Lemma sigR_bounds z : 0 < sigR z < 1.
Proof.
  unfold sigR. set (e := exp _). assert (0 < e) by apply exp_pos.
  split.
  - apply Rdiv_lt_0_compat; lra.
  - apply (Rmult_lt_reg_r (1 + e)); [lra|].
    unfold Rdiv. rewrite Rmult_assoc, Rinv_l by lra. lra.
Qed.

Lemma jle_fin a b : jle (Fin a) (Fin b) = true <-> a <= b.
Proof.
  unfold jle, jlt. destruct (Rlt_dec b a); simpl; split; intros; try discriminate; lra.
Qed.

Lemma lr_of_fin ep : lr_of ep = Fin (2 / 10 / (1 + INR ep)).
Proof.
  unfold lr_of, lr0, num_of_nat. cbn [jadd]. apply jdiv_fin.
  pose proof (pos_INR ep). lra.
Qed.

Lemma predict_fin (m : model) (q : sel) z :
  dot (mw m) (featureIndices q (mD m)) (mb m) = Fin z ->
  predictEstimator (Some m) q = Some (Fin (sigR z)).
Proof.
  intros Hz. unfold predictEstimator. rewrite Hz, sigmoid_fin.
  pose proof (sigR_bounds z).
  rewrite jmin_fin, jmax_fin. do 2 f_equal.
  rewrite Rmin_right by lra. rewrite Rmax_right by lra. reflexivity.
Qed.

(** ** Feature indices *)

Lemma featureIndices_ind (Q : list Z -> Prop) (c : sel) (D : Z) :
  Q [] -> (forall k v idx, Q idx -> Q (add_key D k v idx)) ->
  Q (featureIndices c D).
Proof.
  intros H0 Hk. unfold featureIndices.
  repeat first [apply Hk | case_match]; auto.
Qed.

Lemma add_key_forall (P : Z -> Prop) D k v idx :
  (forall s, P (hashStr s D)) -> Forall P idx -> Forall P (add_key D k v idx).
Proof.
  intros HP Hidx. unfold add_key, set_add.
  destruct (is_skipped v); [exact Hidx|].
  destruct (existsb _ _); [exact Hidx|].
  apply Forall_app; split; [exact Hidx | constructor; [apply HP | constructor]].
Qed.

Lemma add_key_nodup D k v idx : NoDup idx -> NoDup (add_key D k v idx).
Proof.
  intros Hnd. unfold add_key, set_add.
  destruct (is_skipped v); [exact Hnd|].
  destruct (existsb _ idx) eqn:He; [exact Hnd|].
  apply NoDup_app; repeat split; [exact Hnd| |apply NoDup_singleton].
  intros x Hx Hx'. apply list_elem_of_singleton in Hx'. subst x.
  apply list_elem_of_In in Hx.
  assert (existsb (Z.eqb (hashStr (k ++ u "=" ++ v) D)) idx = true).
  { apply existsb_exists. exists (hashStr (k ++ u "=" ++ v) D). split; [exact Hx | apply Z.eqb_refl]. }
  congruence.
Qed.

Lemma hashStr_range s D : (0 < D)%Z -> in_range D (hashStr s D).
Proof. intros HD. unfold in_range, hashStr. apply Z.mod_pos_bound. exact HD. Qed.

Lemma featureIndices_range c D :
  (0 < D)%Z -> Forall (in_range D) (featureIndices c D).
Proof.
  intros HD. apply featureIndices_ind; [constructor|].
  intros. apply add_key_forall; [|assumption]. intros; apply hashStr_range; exact HD.
Qed.

Lemma featureIndices_nodup c D : NoDup (featureIndices c D).
Proof.
  apply featureIndices_ind; [constructor|]. intros; apply add_key_nodup; assumption.
Qed.

(** ** Training keeps every number finite *)

Lemma read_fin (D : Z) (w : list jsnum) (i : Z) :
  length w = Z.to_nat D -> Forall is_fin w -> in_range D i -> is_fin (read w i).
Proof.
  intros Hlen Hw [Hi0 HiD]. unfold read.
  destruct (Z.ltb_spec i 0); [lia|].
  destruct (lookup_lt_is_Some_2 w (Z.to_nat i)) as [x Hx]; [lia|].
  rewrite Hx. eapply Forall_lookup_1; eassumption.
Qed.

Lemma dot_fin (w : list jsnum) (idx : list Z) (b : jsnum) :
  Forall (fun i => is_fin (read w i)) idx -> is_fin b -> is_fin (dot w idx b).
Proof.
  unfold dot. revert b. induction idx as [|i idx IH]; intros b Hidx Hb; [exact Hb|].
  inversion Hidx as [|? ? [r Hr] Hrest]; subst. simpl. apply IH; [exact Hrest|].
  destruct Hb as [a ->]. rewrite Hr. eexists; reflexivity.
Qed.

Lemma write_length w i v : length (write w i v) = length w.
Proof. unfold write. destruct (Z.ltb i 0); [reflexivity | apply length_insert]. Qed.

Lemma write_fin w i v : Forall is_fin w -> is_fin v -> Forall is_fin (write w i v).
Proof.
  intros Hw Hv. unfold write. destruct (Z.ltb i 0); [exact Hw | apply Forall_insert; assumption].
Qed.

Lemma update_w_length lr g idx w :
  length (fold_left (update_w lr g) idx w) = length w.
Proof.
  revert w. induction idx as [|j idx IH]; intros w; [reflexivity|].
  simpl. rewrite IH. unfold update_w. apply write_length.
Qed.

Lemma update_w_inv D lr g w idx :
  is_fin lr -> is_fin g -> Forall (in_range D) idx ->
  length w = Z.to_nat D -> Forall is_fin w ->
  length (fold_left (update_w lr g) idx w) = Z.to_nat D /\
  Forall is_fin (fold_left (update_w lr g) idx w).
Proof.
  intros [l ->] [a ->]. revert w.
  induction idx as [|j idx IH]; intros w Hidx Hlen Hw; [split; assumption|].
  inversion Hidx; subst. simpl. apply IH; [assumption| |].
  - unfold update_w. rewrite write_length. exact Hlen.
  - unfold update_w. apply write_fin; [exact Hw|].
    destruct (read_fin D w j Hlen Hw) as [r ->]; [assumption|].
    eexists; reflexivity.
Qed.

Lemma sgd_step_inv D ep st idx y :
  tinv D st -> Forall (in_range D) idx -> is_fin y -> tinv D (sgd_step ep st (idx, y)).
Proof.
  intros (Hlen & Hw & Hb) Hidx Hy. unfold sgd_step.
  destruct (dot_fin (tw st) idx (tb st)) as [z Hz]; [|exact Hb|].
  { eapply Forall_impl; [exact Hidx|]. intros i Hi. eapply read_fin; eassumption. }
  rewrite Hz, sigmoid_fin, lr_of_fin. destruct Hy as [yr ->]. destruct Hb as [br Hbr].
  cbn [jsub jadd jneg jmul]. unfold tinv; cbn [tw tb].
  destruct (update_w_inv D (Fin (2 / 10 / (1 + INR ep))) (Fin (sigR z + - yr)) (tw st) idx)
    as [H1 H2]; try (eexists; reflexivity); try assumption.
  split; [exact H1|]. split; [exact H2|]. rewrite Hbr. eexists; reflexivity.
Qed.

Lemma run_epoch_inv D data st ep :
  Forall (data_ok D) data -> tinv D st -> tinv D (run_epoch data st ep).
Proof.
  unfold run_epoch. revert st. induction data as [|[idx y] data IH]; intros st Hd Hst; [exact Hst|].
  inversion Hd as [|? ? [H1 H2] Hrest]; subst. simpl. apply IH; [exact Hrest|].
  apply sgd_step_inv; assumption.
Qed.

Lemma epochs_inv D data eps st :
  Forall (data_ok D) data -> tinv D st -> tinv D (fold_left (run_epoch data) eps st).
Proof.
  revert st. induction eps as [|ep eps IH]; intros st Hd Hst; [exact Hst|].
  simpl. apply IH; [exact Hd|]. apply run_epoch_inv; assumption.
Qed.

Lemma training_data_ok D rows :
  (0 < D)%Z ->
  Forall (data_ok D) (combine (map (fun r => featureIndices (row_sel r) D) rows) (map label rows)).
Proof.
  intros HD. apply Forall_forall. intros [idx y] Hin. apply list_elem_of_In in Hin.
  split; cbn [fst snd].
  - apply in_combine_l, in_map_iff in Hin. destruct Hin as (r & <- & _).
    apply featureIndices_range; exact HD.
  - apply in_combine_r, in_map_iff in Hin. destruct Hin as (r & <- & _).
    unfold label. destruct (injured r); eexists; reflexivity.
Qed.

Lemma injured_total rows a :
  fold_left (fun acc r => jadd acc (label r)) rows (Fin a)
  = Fin (a + INR (length (List.filter injured rows))).
Proof.
  revert a. induction rows as [|r rows IH]; intros a; simpl.
  - f_equal; ring.
  - unfold label at 2. destruct (injured r); cbn [jadd length]; rewrite IH; f_equal;
      [rewrite S_INR|]; ring.
Qed.

Lemma frac_bounds k n : 0 <= k <= n -> 0 < n -> 0 <= k / n <= 1.
Proof.
  intros Hk Hn. assert (Hkn : k / n * n = k) by (field; lra).
  split; nra.
Qed.

(** The base rate computed by the code, for a non-empty row list. *)
Lemma baseRate_eq rows :
  rows <> [] ->
  jdiv (fold_left (fun acc r => jadd acc (label r)) rows (Fin 0))
       (jmax (Fin 1) (num_of_nat (length rows)))
  = Fin (INR (length (List.filter injured rows)) / INR (length rows)).
Proof.
  intros Hne. destruct rows as [|r rows']; [congruence|]. set (rows := r :: rows').
  assert (HN : 1 <= INR (length rows)).
  { replace 1 with (INR 1) by reflexivity. apply le_INR. simpl; lia. }
  rewrite injured_total. unfold num_of_nat. rewrite jmax_fin, Rmax_right by exact HN.
  rewrite jdiv_fin by lra. f_equal. f_equal. ring.
Qed.

Lemma baseRate_bounds rows :
  rows <> [] ->
  0 <= INR (length (List.filter injured rows)) / INR (length rows) <= 1.
Proof.
  intros Hne. apply frac_bounds.
  - split; [apply pos_INR | apply le_INR, filter_length_le].
  - destruct rows; [congruence|]. apply lt_0_INR. simpl; lia.
Qed.

(** [log((baseRate + 1e-6) / (1 - baseRate + 1e-6))] is finite for a base
    rate in [0, 1]. *)
Lemma bias_init_fin br :
  0 <= br <= 1 ->
  jlog (jdiv (jadd (Fin br) eps) (jadd (jsub (Fin 1) (Fin br)) eps))
  = Fin (ln ((br + 1 / 1000000) / (1 + - br + 1 / 1000000))).
Proof.
  intros Hbr. unfold eps. cbn [jsub jadd jneg].
  rewrite jdiv_fin by lra. apply jlog_fin.
  apply Rdiv_lt_0_compat; lra.
Qed.

Lemma nat_match_S {A} (n : nat) (a f : A) :
  n <> O -> match n with O => a | S _ => f end = f.
Proof. destruct n; [congruence | reflexivity]. Qed.

Lemma train_inv rows D m :
  (0 < D)%Z -> trainEstimator rows D = Some m ->
  mD m = D /\ tinv D (mkTstate (mw m) (mb m)).
Proof.
  intros HD Htr.
  assert (Hne : rows <> []) by (intros ->; discriminate).
  unfold trainEstimator in Htr. cbv zeta in Htr.
  rewrite nat_match_S in Htr by (destruct rows; [congruence | discriminate]).
  injection Htr as <-. cbn [mD mw mb]. split; [reflexivity|].
  rewrite baseRate_eq by exact Hne.
  rewrite bias_init_fin by (apply baseRate_bounds; exact Hne).
  match goal with |- tinv D (mkTstate (tw ?st) (tb ?st)) =>
    assert (Hst : tinv D st) end.
  { pose proof (training_data_ok D rows HD) as Hd.
    repeat (apply run_epoch_inv; [exact Hd|]).
    split; [apply repeat_length|]. split; [|eexists; reflexivity].
    apply Forall_forall. intros x Hx. cbn [tw] in Hx. apply list_elem_of_In, repeat_spec in Hx. subst; eexists; reflexivity. }
  exact Hst.
Qed.

(** ** C1, C6, C8 *)

(** C1: for a model produced by training (with a positive dimension) every
    query, whichever fields it sets, gets a finite probability in [0, 1]
    (never NaN or infinite), and [predictEstimator] gives null exactly on
    the null model. *)
Theorem predict_trained_in_unit_interval (rows : list row) (D : Z) (m : model) :
  (0 < D)%Z -> trainEstimator rows D = Some m ->
  (forall q : sel, exists p, predictEstimator (Some m) q = Some (Fin p) /\ 0 <= p <= 1) /\
  (forall q : sel, predictEstimator None q = None).
Proof.
  intros HD Htr. destruct (train_inv rows D m HD Htr) as (HmD & Hlen & Hw & Hb).
  cbn [tw tb] in *. split; [|reflexivity]. intros q.
  destruct (dot_fin (mw m) (featureIndices q (mD m)) (mb m)) as [z Hz]; [|exact Hb|].
  { rewrite HmD. eapply Forall_impl; [apply featureIndices_range; exact HD|].
    intros i Hi. eapply read_fin; eassumption. }
  exists (sigR z). split; [apply predict_fin; exact Hz|].
  pose proof (sigR_bounds z). lra.
Qed.

(** C6: training on no rows gives the null model, and prediction on the
    null model gives null, whatever the query. *)
Theorem train_empty_is_null (D : Z) :
  trainEstimator [] D = None /\ (forall q : sel, predictEstimator None q = None).
Proof. split; reflexivity. Qed.

(** C8: for a positive dimension [D], [hashStr key D] (a function of its
    arguments, hence deterministic) lies in [[0, D)]; every index of
    [featureIndices] does too; an SGD step keeps the weight array at [D]
    entries, and a trained model has dimension [D] and [D] weights, so
    every read and write of the weights is in bounds. *)
Theorem hash_and_indices_in_bounds (D : Z) :
  (0 < D)%Z ->
  (forall key : jsstr, (0 <= hashStr key D < D)%Z) /\
  (forall (c : sel) (i : Z), In i (featureIndices c D) -> (0 <= i < D)%Z) /\
  (forall ep st xy, length (tw st) = Z.to_nat D -> Forall (in_range D) (fst xy) ->
     length (tw (sgd_step ep st xy)) = Z.to_nat D) /\
  (forall rows m, trainEstimator rows D = Some m ->
     mD m = D /\ length (mw m) = Z.to_nat D).
Proof.
  intros HD. split; [|split; [|split]].
  - intros key. apply hashStr_range; exact HD.
  - intros c i Hi. pose proof (featureIndices_range c D HD) as Hr.
    rewrite Forall_forall in Hr. apply Hr, list_elem_of_In; exact Hi.
  - intros ep st [idx y] Hlen Hidx. cbn [fst] in Hidx. unfold sgd_step. cbn [tw].
    rewrite update_w_length. exact Hlen.
  - intros rows m Htr. destruct (train_inv rows D m HD Htr) as (H1 & H2 & _). split; assumption.
Qed.

(** ** The code's training loop is the reference one *)

Lemma jadd_assoc x y z : jadd x (jadd y z) = jadd (jadd x y) z.
Proof. destruct x, y, z; cbn; try reflexivity; f_equal; ring. Qed.

Lemma jadd_0_r x : jadd x (Fin 0) = x.
Proof. destruct x; cbn; try reflexivity; f_equal; ring. Qed.

Lemma dot_ref_sum w idx b : dot w idx b = jadd b (ref_sum (map (read w) idx)).
Proof.
  unfold dot, ref_sum. rewrite <- (jadd_0_r b) at 1. generalize (Fin 0).
  induction idx as [|i idx IH]; intros x; [reflexivity|].
  simpl. rewrite <- jadd_assoc. apply IH.
Qed.

Lemma update_fold_lookup lr g idx w i :
  NoDup idx -> Forall (fun j => (0 <= j)%Z) idx ->
  fold_left (update_w lr g) idx w !! i
  = if bool_decide (Z.of_nat i ∈ idx) then upd lr g <$> w !! i else w !! i.
Proof.
  revert w. induction idx as [|j idx IH]; intros w Hnd Hpos.
  - simpl. destruct (bool_decide_reflect (Z.of_nat i ∈ [])) as [Hc|]; [apply not_elem_of_nil in Hc; contradiction | reflexivity].
  - apply NoDup_cons in Hnd as [Hj Hnd]. inversion Hpos as [|? ? Hj0 Hpos']; subst.
    simpl. rewrite IH by assumption.
    unfold update_w, write. destruct (Z.ltb_spec j 0); [lia|].
    destruct (bool_decide_reflect (Z.of_nat i ∈ idx)) as [Hin|Hnin].
    + rewrite bool_decide_true by (apply list_elem_of_further; exact Hin).
      rewrite list_lookup_insert_ne; [reflexivity|].
      intros Heq. apply Hj. replace j with (Z.of_nat i) by lia. exact Hin.
    + destruct (Z.eq_dec j (Z.of_nat i)) as [->|Hne].
      * rewrite bool_decide_true by (apply list_elem_of_here).
        rewrite Nat2Z.id, list_lookup_insert. unfold read.
        destruct (Z.ltb_spec (Z.of_nat i) 0); [lia|]. rewrite Nat2Z.id.
        destruct (decide _) as [[_ Hlt]|Hno].
        -- destruct (lookup_lt_is_Some_2 w i Hlt) as [x ->]. reflexivity.
        -- destruct (w !! i) eqn:Hw; [|reflexivity].
           exfalso. apply Hno. split; [reflexivity|]. apply lookup_lt_is_Some_1. eauto.
      * rewrite bool_decide_false.
        -- apply list_lookup_insert_ne. lia.
        -- intros Hc. apply elem_of_cons in Hc as [Hc|Hc]; [lia | exact (Hnin Hc)].
Qed.

Lemma update_fold_ref lr g idx w :
  NoDup idx -> Forall (fun j => (0 <= j)%Z) idx ->
  fold_left (update_w lr g) idx w = ref_update idx lr g w.
Proof.
  intros Hnd Hpos. apply list_eq. intros i.
  rewrite update_fold_lookup by assumption.
  unfold ref_update. rewrite list_lookup_imap.
  destruct (bool_decide _), (w !! i); reflexivity.
Qed.

Lemma featureIndices_nonneg c D : (0 < D)%Z -> Forall (fun j => (0 <= j)%Z) (featureIndices c D).
Proof.
  intros HD. eapply Forall_impl; [apply featureIndices_range; exact HD|].
  intros j [Hj _]. exact Hj.
Qed.

Lemma sgd_step_ref D ep st r :
  (0 < D)%Z ->
  sgd_step ep st (featureIndices (row_sel r) D, label r) = ref_step D ep st r.
Proof.
  intros HD. unfold sgd_step, ref_step. rewrite dot_ref_sum, lr_of_fin.
  rewrite update_fold_ref by (apply featureIndices_nodup || apply featureIndices_nonneg; exact HD).
  reflexivity.
Qed.

Lemma run_epoch_ref D rows st ep :
  (0 < D)%Z ->
  run_epoch (combine (map (fun r => featureIndices (row_sel r) D) rows) (map label rows)) st ep
  = fold_left (ref_step D ep) rows st.
Proof.
  intros HD. unfold run_epoch. revert st.
  induction rows as [|r rows IH]; intros st; [reflexivity|].
  cbn [fold_left map combine]. rewrite sgd_step_ref by exact HD. apply IH.
Qed.

(** C2: on a non-empty row list (positive dimension), [trainEstimator]
    returns exactly the model of the reference trainer [train_reference]
    written from the spec (base rate as the injured fraction, bias at the
    smoothed log-odds, zero weights, three epochs of per-row SGD in the
    given order with [lr = 0.2 / (1 + epoch)] and the combined decay step on
    every active weight), and the initial bias is finite even for a base
    rate of 0 or 1.  Being a function of the rows and the dimension, two
    runs on the same rows give the same weights, bias and base rate. *)
Theorem train_is_reference_sgd (rows : list row) (D : Z) :
  (0 < D)%Z -> rows <> [] ->
  trainEstimator rows D = Some (train_reference rows D) /\ is_fin (ref_bias0 rows).
Proof.
  intros HD Hne. split.
  - unfold trainEstimator. cbv zeta.
    rewrite nat_match_S by (destruct rows; [congruence | discriminate]).
    rewrite baseRate_eq by exact Hne.
    unfold train_reference. cbv zeta. cbn [seq epochs fold_left].
    rewrite !run_epoch_ref by exact HD. reflexivity.
  - unfold ref_bias0, ref_baseRate. pose proof (baseRate_bounds rows Hne) as Hb.
    cbn [jsub jadd jneg]. rewrite jdiv_fin by lra. eexists. apply jlog_fin.
    apply Rdiv_lt_0_compat; lra.
Qed.

(** C3, the claim as stated: on the query [{vehicleType: "Sedan",
    borough: "Dyn"}] the keys [veh=Sedan] and [bor=Dyn] fall in the same
    bucket 272, and [featureIndices] returns that bucket once, not once
    per key, so its weight enters [z] once where one contribution per key
    would add it twice. *)
Lemma featureIndices_collision_counted_once :
  hashStr (u "veh=Sedan") 1024 = hashStr (u "bor=Dyn") 1024 /\
  featureIndices (mkSel (Some (u "Sedan")) None (Some (u "Dyn")) None None) 1024 = [272%Z] /\
  dot (repeat (Fin 1) 1024) (featureIndices (mkSel (Some (u "Sedan")) None (Some (u "Dyn")) None None) 1024) (Fin 0)
  <> jadd (jadd (Fin 0) (read (repeat (Fin 1) 1024) 272)) (read (repeat (Fin 1) 1024) 272).
Proof.
  assert (Hfi : featureIndices (mkSel (Some (u "Sedan")) None (Some (u "Dyn")) None None) 1024 = [272%Z])
    by (vm_compute; reflexivity).
  split; [vm_compute; reflexivity|]. split; [exact Hfi|].
  rewrite Hfi. unfold dot. cbn [fold_left].
  assert (Hr : read (repeat (Fin 1) 1024) 272 = Fin 1) by reflexivity.
  rewrite Hr. cbn [jadd]. intros Heq. injection Heq. lra.
Qed.

(** C3, amended: [featureIndices] is a set of buckets (no index twice),
    so keys of one row that collide give their bucket once: its weight
    enters [z] once and the update loop changes it once per row, exactly
    as the all-at-once update [ref_update] does. *)
Theorem featureIndices_is_a_set (c : sel) (D : Z) :
  (0 < D)%Z ->
  NoDup (featureIndices c D) /\
  (forall lr g w, fold_left (update_w lr g) (featureIndices c D) w
                  = ref_update (featureIndices c D) lr g w).
Proof.
  intros HD. split; [apply featureIndices_nodup|].
  intros lr g w. apply update_fold_ref; [apply featureIndices_nodup | apply featureIndices_nonneg; exact HD].
Qed.

(** ** Chain search *)

Lemma fold_left_inv {A B} (Q : A -> Prop) (f : A -> B -> A) (l : list B) (a : A) :
  (forall acc x, In x l -> Q acc -> Q (f acc x)) -> Q a -> Q (fold_left f l a).
Proof.
  revert a. induction l as [|x l IH]; intros a Hf Ha; [exact Ha|].
  simpl. apply IH; [intros; apply Hf; [right|]; assumption|]. apply Hf; [left; reflexivity | exact Ha].
Qed.

Lemma domain_values_fit d f v : In v (domain_values d f) -> value_fits f v.
Proof.
  destruct f; cbn; intros Hin; apply in_map_iff in Hin as (x & <- & _); exact I.
Qed.

Lemma search_ok rows m d worst minSupport s pCurr c :
  search rows m d worst minSupport s pCurr = Some c ->
  cand_ok rows m minSupport s pCurr c.
Proof.
  unfold search. revert c.
  apply (fold_left_inv (fun best => forall c, best = Some c -> cand_ok rows m minSupport s pCurr c));
    [|discriminate].
  intros best f _ Hbest.
  destruct (sel_is_set s f) eqn:Hset; [exact Hbest|].
  apply fold_left_inv; [|exact Hbest].
  intros best' v Hv Hbest' c. unfold consider.
  destruct (Z.ltb_spec (Z.of_nat (supportCount rows (sel_set s f v))) minSupport);
    [apply Hbest'|].
  destruct (predictEstimator m (sel_set s f v)) as [p|] eqn:Hp; [|apply Hbest'].
  assert (Hnew : forall sc, Some (mkCand f v p (supportCount rows (sel_set s f v)) (jsub p pCurr) sc)
                            = Some c -> cand_ok rows m minSupport s pCurr c).
  { intros sc Hc. injection Hc as <-. unfold cand_ok; cbn.
    repeat split; try assumption; try reflexivity; try lia. eapply domain_values_fit; exact Hv. }
  destruct best' as [b|]; [|apply Hnew].
  destruct (jlt (cscore b) _); [apply Hnew | apply Hbest'].
Qed.

Lemma sel_is_set_set s f v f' :
  value_fits f v ->
  sel_is_set (sel_set s f v) f' = true <-> f' = f \/ sel_is_set s f' = true.
Proof.
  intros Hfit. destruct f, v; try contradiction; destruct f'; cbn;
    rewrite ?bool_decide_eq_true; split; intros H;
    solve [ left; reflexivity | right; assumption | eexists; reflexivity
          | destruct H as [H|H]; [discriminate H | assumption] ].
Qed.

Lemma matches_set s f v r :
  sel_is_set s f = false -> value_fits f v ->
  matches (sel_set s f v) r = true -> matches s r = true.
Proof.
  intros Hs Hfit. destruct s as [a b c h w].
  destruct f, v; try contradiction; cbn in Hs; apply bool_decide_eq_false in Hs;
    [destruct a | destruct b | destruct c | destruct h | destruct w];
    try (exfalso; apply Hs; eexists; reflexivity);
    unfold matches; cbn; rewrite !andb_true_iff; tauto.
Qed.

Lemma filter_length_mono {A} (p q : A -> bool) (l : list A) :
  (forall x, p x = true -> q x = true) ->
  (length (List.filter p l) <= length (List.filter q l))%nat.
Proof.
  intros Hpq. induction l as [|x l IH]; [reflexivity|]. cbn.
  destruct (p x) eqn:Hp; [rewrite (Hpq x Hp); cbn; lia|].
  destruct (q x); cbn; lia.
Qed.

Lemma supportCount_set s f v rows :
  sel_is_set s f = false -> value_fits f v ->
  (supportCount rows (sel_set s f v) <= supportCount rows s)%nat.
Proof.
  intros Hs Hfit. unfold supportCount. apply filter_length_mono.
  intros r. apply matches_set; assumption.
Qed.

Lemma supportCount_empty rows : supportCount rows empty_sel = length rows.
Proof.
  unfold supportCount. induction rows as [|r rows IH]; [reflexivity|]. cbn. rewrite IH. reflexivity.
Qed.

Lemma clamp01_pval x : pval (jmax (Fin 0) (jmin (Fin 1) x)).
Proof.
  destruct x as [a| | |]; cbn -[jmax jmin].
  - rewrite jmin_fin, jmax_fin. right. eexists. split; [reflexivity|].
    unfold Rmax, Rmin. destruct (Rle_dec 1 a), (Rle_dec 0 _); lra.
  - left; reflexivity.
  - right. exists 1. unfold jmin, jmax, jlt. destruct (Rlt_dec 0 1); [|lra]. split; [reflexivity | lra].
  - right. exists 0. unfold jmin, jmax, jlt. split; [reflexivity | lra].
Qed.

Lemma predict_pval m q p : predictEstimator m q = Some p -> pval p.
Proof.
  destruct m as [mm|]; [|discriminate]. cbn. intros Hp. injection Hp as <-. apply clamp01_pval.
Qed.

Lemma step_monotone a b md :
  pval a -> pval b -> jle (Fin 0) md = true ->
  (jle md (jsub b a) = true -> num_le a b) /\
  (jle md (jneg (jsub b a)) = true -> num_le b a).
Proof.
  intros Ha Hb Hmd.
  destruct Ha as [->|(x & -> & _)]; [split; intros H; destruct b, md; discriminate|].
  destruct Hb as [->|(y & -> & _)]; [split; intros H; destruct md; discriminate|].
  destruct md as [r| | |]; try discriminate; [|split; intros H; discriminate].
  apply jle_fin in Hmd. cbn [jsub jneg jadd]. split; intros H; apply jle_fin in H.
  - exists x, y. repeat split; lra.
  - exists y, x. repeat split; lra.
Qed.

Lemma adjacent_snoc {A} (R : A -> A -> Prop) (l : list A) (y d : A) :
  l <> [] -> adjacent R l -> R (List.last l d) y -> adjacent R (l ++ [y]).
Proof.
  induction l as [|x l IH]; [congruence|]. intros _ Hadj HR.
  destruct l as [|z l]; [cbn in *; tauto|].
  destruct Hadj as [Hxz Hadj]. cbn [app]. cbn [adjacent].
  split; [exact Hxz|]. apply IH; [discriminate | exact Hadj | exact HR].
Qed.

Lemma adjacent_nth {A} (R : A -> A -> Prop) (l : list A) :
  adjacent R l -> forall k a b, nth_error l k = Some a -> nth_error l (S k) = Some b -> R a b.
Proof.
  induction l as [|x l IH]; intros Hadj k a b Ha Hb; [destruct k; discriminate|].
  destruct l as [|y l]; [destruct k as [|[|k]]; discriminate|].
  destruct Hadj as [Hxy Hadj]. destruct k as [|k].
  - cbn in Ha, Hb. injection Ha as <-. injection Hb as <-. exact Hxy.
  - apply (IH Hadj k); assumption.
Qed.

Lemma chain_loop_ind rows m d worst minSupport minDelta
      (I : sel -> jsnum -> list step -> Prop) :
  (forall s p steps c,
      I s p steps -> search rows m d worst minSupport s p = Some c ->
      (if worst then jle minDelta (cdelta c) else jle minDelta (jneg (cdelta c))) = true ->
      I (sel_set s (cfield c) (cvalue c)) (cp c)
        (steps ++ [mkStep (Some (cfield c)) (Some (cvalue c)) (cp c) (cn c) (Some (cdelta c))])) ->
  forall fuel s p steps, I s p steps ->
  exists s' p', I s' p' (chain_loop rows m d worst minSupport minDelta fuel s p steps).
Proof.
  intros Hstep fuel. induction fuel as [|fuel IH]; intros s p steps HI; [exists s, p; exact HI|].
  cbn [chain_loop]. destruct (search rows m d worst minSupport s p) as [c|] eqn:Hs;
    [|exists s, p; exact HI].
  destruct (if worst then jle minDelta (cdelta c) else jle minDelta (jneg (cdelta c))) eqn:Himp;
    cbn [negb]; cbv iota; [|exists s, p; exact HI].
  apply (IH _ (cp c) _). eapply Hstep; eassumption.
Qed.

Lemma chain_loop_length rows m d worst minSupport minDelta fuel s p steps :
  (length steps <= length (chain_loop rows m d worst minSupport minDelta fuel s p steps)
   <= length steps + fuel)%nat.
Proof.
  revert s p steps. induction fuel as [|fuel IH]; intros s p steps; cbn [chain_loop]; [lia|].
  destruct (search rows m d worst minSupport s p) as [c|]; [|lia].
  destruct (negb _); [lia|].
  match goal with |- context [chain_loop _ _ _ _ _ _ fuel ?s' ?p' ?st'] =>
    specialize (IH s' p' st') end.
  rewrite length_app in IH. cbn in IH. lia.
Qed.

Lemma chain_inv_step rows m d worst minSupport s p steps c :
  chain_inv rows minSupport s steps ->
  search rows m d worst minSupport s p = Some c ->
  chain_inv rows minSupport (sel_set s (cfield c) (cvalue c))
    (steps ++ [mkStep (Some (cfield c)) (Some (cvalue c)) (cp c) (cn c) (Some (cdelta c))]).
Proof.
  intros Hinv Hs.
  destruct (search_ok _ _ _ _ _ _ _ _ Hs) as (Hset & Hfit & Hn & Hmin & _ & _).
  destruct Hinv as ((st0 & rest & fs & -> & H0 & Hn0 & Hmap & Hnd & Hiff & Hms) & Hsup & Hsn).
  split; [|split].
  - exists st0, (rest ++ [mkStep (Some (cfield c)) (Some (cvalue c)) (cp c) (cn c) (Some (cdelta c))]),
      (fs ++ [cfield c]).
    split; [reflexivity|]. split; [exact H0|]. split; [exact Hn0|].
    split; [rewrite !map_app, Hmap; reflexivity|].
    split.
    { apply NoDup_app. split; [exact Hnd|]. split; [|apply NoDup_singleton].
      intros x Hx Hx'. apply list_elem_of_singleton in Hx'. subst x.
      apply list_elem_of_In, Hiff in Hx. congruence. }
    split.
    { intros f'. rewrite sel_is_set_set by exact Hfit. rewrite in_app_iff, <- Hiff. cbn.
      split; intros [H|H]; auto; destruct H as [H|[]]; auto. }
    apply Forall_app. split; [exact Hms|]. constructor; [cbn; exact Hmin | constructor].
  - rewrite last_last. cbn [sn]. lia.
  - eapply adjacent_snoc; [discriminate | exact Hsn|]. cbn [sn]. rewrite Hn.
    etransitivity; [apply supportCount_set; assumption | exact Hsup].
Qed.

Lemma chain_dir_step rows m d worst minSupport minDelta s p steps c :
  jle (Fin 0) minDelta = true ->
  chain_dir worst p steps ->
  search rows m d worst minSupport s p = Some c ->
  (if worst then jle minDelta (cdelta c) else jle minDelta (jneg (cdelta c))) = true ->
  chain_dir worst (cp c)
    (steps ++ [mkStep (Some (cfield c)) (Some (cvalue c)) (cp c) (cn c) (Some (cdelta c))]).
Proof.
  intros Hmd (Hlast & Hpv & Hdir) Hs Himp.
  destruct (search_ok _ _ _ _ _ _ _ _ Hs) as (_ & _ & _ & _ & Hdelta & Hpred).
  assert (Hpc : pval (cp c)) by (eapply predict_pval; exact Hpred).
  split; [rewrite last_last; reflexivity|]. split; [exact Hpc|].
  destruct steps as [|st0 rest]; [cbn in Hdir; cbn; exact I|].
  eapply adjacent_snoc; [discriminate | exact Hdir|].
  unfold dir_ok. rewrite Hlast. cbn [sp]. rewrite Hdelta in Himp.
  destruct (step_monotone p (cp c) minDelta Hpv Hpc Hmd) as [Hw Hb].
  destruct worst; auto.
Qed.

Lemma greedyChain_start_pval m :
  pval (nullish (predictEstimator m empty_sel)
                (match m with Some mm => mbaseRate mm | None => Fin 0 end)).
Proof.
  destruct m as [mm|].
  - cbn [nullish predictEstimator]. apply clamp01_pval.
  - right. exists 0. split; [reflexivity | lra].
Qed.

Lemma greedyChain_inv rows m d direction opts :
  exists s, chain_inv rows (nullish (o_minSupport opts) 80%Z) s (greedyChain rows m d direction opts).
Proof.
  unfold greedyChain. cbv zeta.
  match goal with |- context [chain_loop ?r ?mm ?dd ?w ?ms ?md ?fuel ?s0 ?p0 ?st] =>
    destruct (chain_loop_ind r mm dd w ms md (fun s _ steps => chain_inv r ms s steps)
                (fun s p steps c Hinv Hs _ => chain_inv_step _ _ _ _ _ _ _ _ _ Hinv Hs)
                fuel s0 p0 st) as (s' & _ & Hs') end.
  - split; [|split].
    + exists (mkStep None None (nullish (predictEstimator m empty_sel)
                (match m with Some mm => mbaseRate mm | None => Fin 0 end)) (length rows) None), [], [].
      repeat split; try reflexivity; try constructor.
      * intros Hf. destruct f; cbn in Hf; discriminate.
      * intros [].
    + cbn. rewrite supportCount_empty. lia.
    + exact I.
  - exists s'. exact Hs'.
Qed.

Lemma greedyChain_dir rows m d direction opts :
  jle (Fin 0) (nullish (o_minDelta opts) (Fin (1 / 1000))) = true ->
  adjacent (dir_ok (String.eqb direction "worst"%string)) (greedyChain rows m d direction opts).
Proof.
  intros Hmd. unfold greedyChain. cbv zeta.
  match goal with |- context [chain_loop ?r ?mm ?dd ?w ?ms ?md ?fuel ?s0 ?p0 ?st] =>
    destruct (chain_loop_ind r mm dd w ms md (fun _ p steps => chain_dir w p steps)
                (fun s p steps c Hdir Hs Himp =>
                   chain_dir_step _ _ _ _ _ _ _ _ _ _ Hmd Hdir Hs Himp)
                fuel s0 p0 st) as (_ & _ & _ & _ & Hadj) end.
  - split; [reflexivity|]. split; [apply greedyChain_start_pval | exact I].
  - exact Hadj.
Qed.

(** C4: for [minDelta >= 0], consecutive steps of a "worst" chain have
    non-decreasing probabilities, and those of a "best" chain (any other
    direction) non-increasing ones; all of them are finite numbers. *)
Theorem greedyChain_monotone rows m d direction opts :
  jle (Fin 0) (nullish (o_minDelta opts) (Fin (1 / 1000))) = true ->
  forall k a b,
    nth_error (greedyChain rows m d direction opts) k = Some a ->
    nth_error (greedyChain rows m d direction opts) (S k) = Some b ->
    (direction = "worst"%string -> num_le (sp a) (sp b)) /\
    (direction <> "worst"%string -> num_le (sp b) (sp a)).
Proof.
  intros Hmd k a b Ha Hb.
  pose proof (adjacent_nth _ _ (greedyChain_dir rows m d direction opts Hmd) k a b Ha Hb) as H.
  unfold dir_ok in H. destruct (String.eqb_spec direction "worst"%string) as [E|E].
  - split; [intros _; exact H | intros C; contradiction].
  - split; [intros C; contradiction | intros _; exact H].
Qed.

(** C5: a chain is the Start step (no field) followed by steps whose
    fields are pairwise distinct, and its length lies between 1 and
    [maxDepth + 1]. *)
Theorem greedyChain_fields_unique rows m d direction opts :
  (1 <= length (greedyChain rows m d direction opts)
     <= S (nullish (o_maxDepth opts) 5))%nat /\
  exists st0 rest fs,
    greedyChain rows m d direction opts = st0 :: rest /\ sfield st0 = None /\
    map sfield rest = map Some fs /\ NoDup fs.
Proof.
  split.
  - unfold greedyChain. cbv zeta.
    match goal with |- context [chain_loop ?r ?mm ?dd ?w ?ms ?md ?fuel ?s0 ?p0 ?st] =>
      pose proof (chain_loop_length r mm dd w ms md fuel s0 p0 st) end.
    cbn [length] in *. lia.
  - destruct (greedyChain_inv rows m d direction opts)
      as (s & (st0 & rest & fs & E & H0 & _ & Hmap & Hnd & _) & _).
    exists st0, rest, fs. auto.
Qed.

(** C10: the Start step's support is the number of records, every later
    step has support at least [minSupport], and the support never grows
    from one step to the next. *)
Theorem greedyChain_support rows m d direction opts :
  (exists st0 rest,
      greedyChain rows m d direction opts = st0 :: rest /\ sn st0 = length rows /\
      Forall (fun st => (nullish (o_minSupport opts) 80 <= Z.of_nat (sn st))%Z) rest) /\
  (forall k a b,
      nth_error (greedyChain rows m d direction opts) k = Some a ->
      nth_error (greedyChain rows m d direction opts) (S k) = Some b ->
      (sn b <= sn a)%nat).
Proof.
  destruct (greedyChain_inv rows m d direction opts)
    as (s & (st0 & rest & fs & E & _ & Hn0 & _ & _ & _ & Hms) & _ & Hadj).
  split.
  - exists st0, rest. auto.
  - intros k a b Ha Hb. exact (adjacent_nth _ _ Hadj k a b Ha Hb).
Qed.

(** ** Domain ranking *)

Lemma cnt_app vs ws x : cnt (vs ++ ws) x = (cnt vs x + cnt ws x)%nat.
Proof. unfold cnt. rewrite List.filter_app, length_app. reflexivity. Qed.

Lemma cnt_notin vs x : ~ In x vs -> cnt vs x = 0%nat.
Proof.
  unfold cnt. induction vs as [|y vs IH]; intros Hn; [reflexivity|]. cbn.
  case_bool_decide as E; [subst; exfalso; apply Hn; left; reflexivity|].
  apply IH. intros H. apply Hn. right. exact H.
Qed.

Lemma first_seen_gen (vs acc : list jsstr) :
  NoDup acc ->
  NoDup (fold_left (fun acc v => if bool_decide (v ∈ acc) then acc else acc ++ [v]) vs acc) /\
  (forall x, In x (fold_left (fun acc v => if bool_decide (v ∈ acc) then acc else acc ++ [v]) vs acc)
             <-> In x acc \/ In x vs).
Proof.
  revert acc. induction vs as [|v vs IH]; intros acc Hnd; cbn [fold_left].
  - split; [exact Hnd|]. intros x. cbn. tauto.
  - case_bool_decide as Hv.
    + destruct (IH acc Hnd) as [H1 H2]. split; [exact H1|]. intros x. rewrite H2. cbn.
      apply list_elem_of_In in Hv. split; [tauto|]. intros [H|[<-|H]]; auto.
    + assert (Hnd' : NoDup (acc ++ [v])).
      { apply NoDup_app. split; [exact Hnd|]. split; [|apply NoDup_singleton].
        intros x Hx Hx'. apply list_elem_of_singleton in Hx'. subst x. contradiction. }
      destruct (IH _ Hnd') as [H1 H2]. split; [exact H1|]. intros x. rewrite H2, in_app_iff. cbn.
      tauto.
Qed.

Lemma first_seen_nodup vs : NoDup (first_seen vs).
Proof. apply first_seen_gen. constructor. Qed.

Lemma first_seen_in vs x : In x (first_seen vs) <-> In x vs.
Proof.
  unfold first_seen. rewrite (proj2 (first_seen_gen vs [] (NoDup_nil_2))). cbn. tauto.
Qed.

Lemma first_seen_snoc vs v :
  first_seen (vs ++ [v]) =
  if bool_decide (v ∈ first_seen vs) then first_seen vs else first_seen vs ++ [v].
Proof. unfold first_seen. rewrite fold_left_app. reflexivity. Qed.

Lemma bump_in (f g : jsstr -> nat) L v :
  NoDup L -> In v L -> g v = S (f v) -> (forall x, x <> v -> g x = f x) ->
  bump v (map (fun x => (x, f x)) L) = map (fun x => (x, g x)) L.
Proof.
  induction L as [|x L IH]; intros Hnd Hin Hv Hg; [destruct Hin|].
  apply NoDup_cons in Hnd as [Hx Hnd]. cbn [map bump].
  case_bool_decide as E.
  - subst x. rewrite Hv. f_equal. apply map_ext_in. intros y Hy. f_equal. symmetry. apply Hg.
    intros ->. apply Hx, list_elem_of_In, Hy.
  - rewrite Hg by exact E. f_equal. apply IH; [exact Hnd | | exact Hv | exact Hg].
    destruct Hin as [->|H]; [contradiction | exact H].
Qed.

Lemma bump_notin (f : jsstr -> nat) L v :
  ~ In v L -> bump v (map (fun x => (x, f x)) L) = map (fun x => (x, f x)) L ++ [(v, 1%nat)].
Proof.
  induction L as [|x L IH]; intros Hin; [reflexivity|]. cbn [map bump app].
  case_bool_decide as E; [subst; exfalso; apply Hin; left; reflexivity|].
  f_equal. apply IH. intros H. apply Hin. right. exact H.
Qed.

Lemma bump_counts vs v : bump v (counts vs) = counts (vs ++ [v]).
Proof.
  unfold counts. rewrite first_seen_snoc. case_bool_decide as Hv.
  - apply bump_in; [apply first_seen_nodup | apply list_elem_of_In, Hv | |].
    + rewrite cnt_app. cbn. case_bool_decide; cbn; [lia | congruence].
    + intros x Hx. rewrite cnt_app. cbn. case_bool_decide; cbn; [congruence | lia].
  - rewrite bump_notin by (rewrite <- list_elem_of_In; exact Hv).
    rewrite map_app. cbn [map]. f_equal.
    + apply map_ext_in. intros x Hx. rewrite cnt_app. cbn.
      case_bool_decide; cbn; [subst; exfalso; apply Hv, list_elem_of_In, Hx | f_equal; lia].
    + rewrite cnt_app, cnt_notin; [cbn; case_bool_decide; cbn; [reflexivity | congruence]|].
      rewrite <- first_seen_in, <- list_elem_of_In. exact Hv.
Qed.

Lemma count_map_counts key arr : count_map key arr = counts (vals key arr).
Proof.
  unfold count_map. change [] with (counts []).
  enough (H : forall pre,
             fold_left (fun m r => match cleaned (key r) with Some v => bump v m | None => m end)
                       arr (counts pre) = counts (pre ++ vals key arr))
    by apply H.
  induction arr as [|r arr IH]; intros pre; cbn [fold_left vals].
  - rewrite app_nil_r. reflexivity.
  - destruct (cleaned (key r)) as [v|].
    + rewrite bump_counts, IH, <- app_assoc. reflexivity.
    + apply IH.
Qed.

Lemma insert_desc_perm x l : Permutation (insert_desc x l) (x :: l).
Proof.
  induction l as [|y l IH]; [reflexivity|]. cbn.
  destruct (snd y <=? snd x)%nat; [reflexivity|].
  etransitivity; [apply perm_skip, IH | apply perm_swap].
Qed.

Lemma sort_desc_perm l : Permutation (sort_desc l) l.
Proof.
  induction l as [|x l IH]; [reflexivity|]. cbn.
  etransitivity; [apply insert_desc_perm | apply perm_skip, IH].
Qed.

Lemma insert_desc_sorted (Rel : jsstr * nat -> jsstr * nat -> Prop) x l :
  (forall a b, Rel a b -> (snd b <= snd a)%nat) ->
  (forall y, In y l -> (snd y <= snd x)%nat -> Rel x y) ->
  (forall y, In y l -> (snd x < snd y)%nat -> Rel y x) ->
  StronglySorted Rel l -> StronglySorted Rel (insert_desc x l).
Proof.
  intros HR. induction l as [|y l IH]; intros Hx Hy Hs; cbn.
  - constructor; constructor.
  - apply StronglySorted_inv in Hs as [Hs Hyl].
    destruct (Nat.leb_spec (snd y) (snd x)) as [Hle|Hlt].
    + constructor; [constructor; assumption|]. constructor.
      * apply Hx; [left; reflexivity | exact Hle].
      * apply List.Forall_forall. intros z Hz. rewrite List.Forall_forall in Hyl.
        pose proof (HR _ _ (Hyl z Hz)). apply Hx; [right; exact Hz | lia].
    + constructor.
      * apply IH; [intros; apply Hx; [right|]; assumption
                  | intros; apply Hy; [right|]; assumption | exact Hs].
      * apply List.Forall_forall. intros z Hz.
        apply (Permutation_in _ (insert_desc_perm x l)) in Hz. destruct Hz as [<-|Hz].
        -- apply Hy; [left; reflexivity | exact Hlt].
        -- rewrite List.Forall_forall in Hyl. apply Hyl, Hz.
Qed.

Lemma strongly_sorted_impl {A} (R1 R2 : A -> A -> Prop) l :
  (forall a b, R1 a b -> R2 a b) -> StronglySorted R1 l -> StronglySorted R2 l.
Proof.
  intros H. induction l as [|x l IH]; intros Hs; [constructor|].
  apply StronglySorted_inv in Hs as [Hs Hx]. constructor; [apply IH, Hs|].
  eapply List.Forall_impl; [intros a; apply H | exact Hx].
Qed.

Lemma sort_desc_sorted l : StronglySorted (entry_before l) (sort_desc l).
Proof.
  induction l as [|x t IH]; [constructor|]. cbn [sort_desc].
  apply insert_desc_sorted.
  - intros a b [H|[H _]]; lia.
  - intros y Hy Hle. destruct (Nat.lt_ge_cases (snd y) (snd x)) as [Hlt|Hge]; [left; exact Hlt|].
    right. split; [lia|]. exists [], (map fst t). split; [reflexivity|].
    apply in_map. apply (Permutation_in _ (sort_desc_perm t)), Hy.
  - intros y _ Hlt. left. exact Hlt.
  - eapply strongly_sorted_impl; [|exact IH].
    intros a b [H|[H (l1 & l2 & E & Hb)]]; [left; exact H|].
    right. split; [exact H|]. exists (fst x :: l1), l2. cbn [map]. rewrite E. split; [reflexivity | exact Hb].
Qed.

Lemma sorted_nth {A} (R : A -> A -> Prop) l :
  StronglySorted R l ->
  forall i j a b, (i < j)%nat -> nth_error l i = Some a -> nth_error l j = Some b -> R a b.
Proof.
  induction l as [|y l IH]; intros Hs i j a b Hij Ha Hb; [destruct i; discriminate|].
  apply StronglySorted_inv in Hs as [Hs Hy].
  destruct j as [|j]; [lia|]. destruct i as [|i].
  - cbn in Ha, Hb. injection Ha as <-. rewrite List.Forall_forall in Hy.
    apply Hy. eapply nth_error_In. exact Hb.
  - cbn in Ha, Hb. apply (IH Hs i j); [lia | exact Ha | exact Hb].
Qed.

Lemma counts_fst vs : map fst (counts vs) = first_seen vs.
Proof. unfold counts. rewrite map_map. apply map_id. Qed.

Lemma counts_entry vs e : In e (sort_desc (counts vs)) -> snd e = cnt vs (fst e).
Proof.
  intros He. apply (Permutation_in _ (sort_desc_perm _)) in He.
  unfold counts in He. apply in_map_iff in He as (x & <- & _). reflexivity.
Qed.

Lemma byCount_ranked key arr k : ranked k (vals key arr) (firstn k (byCount arr key)).
Proof.
  exists (byCount arr key). split; [reflexivity|]. unfold byCount. rewrite count_map_counts.
  set (vs := vals key arr). split.
  - rewrite <- counts_fst. apply Permutation_map, sort_desc_perm.
  - intros i j a b Hij Ha Hb. rewrite nth_error_map in Ha, Hb.
    destruct (nth_error (sort_desc (counts vs)) i) as [ea|] eqn:Ea; [|discriminate].
    destruct (nth_error (sort_desc (counts vs)) j) as [eb|] eqn:Eb; [|discriminate].
    cbn in Ha, Hb. injection Ha as <-. injection Hb as <-.
    pose proof (counts_entry vs ea (nth_error_In _ _ Ea)) as Hca.
    pose proof (counts_entry vs eb (nth_error_In _ _ Eb)) as Hcb.
    destruct (sorted_nth _ _ (sort_desc_sorted (counts vs)) i j ea eb Hij Ea Eb) as [H|[H Hbf]].
    + left. rewrite <- Hca, <- Hcb. exact H.
    + right. rewrite <- Hca, <- Hcb, <- counts_fst. split; [exact H | exact Hbf].
Qed.

(** C7, counterexample: the hour and day-of-week domains do not depend on
    the records (with no record at all, the hour domain has 24 values and
    the day domain 7), and the borough domain is capped at 6 values, not 12:
    seven boroughs seen once each give a domain of 6. *)
Lemma buildDomains_hour_dow_fixed_borough_6 :
  d_hour (buildDomains []) = map Z.of_nat (List.seq 0 24) /\
  length (d_hour (buildDomains [])) = 24%nat /\
  d_dow (buildDomains []) = [1; 2; 3; 4; 5; 6; 0]%Z /\
  length (first_seen (vals r_borough
    (map (fun b => mkRow None None (Some (u b)) None None false)
         ["A"; "B"; "C"; "D"; "E"; "F"; "G"]%string))) = 7%nat /\
  length (d_borough (buildDomains
    (map (fun b => mkRow None None (Some (u b)) None None false)
         ["A"; "B"; "C"; "D"; "E"; "F"; "G"]%string))) = 6%nat.
Proof. vm_compute. repeat split. Qed.

(** C7, amended: the vehicle-type and pre-crash domains are the 12 most
    frequent cleaned values and the borough domain the 6 most frequent,
    ranked by decreasing count with ties in first-encountered order; the
    hour domain is always 0..23 and the day domain always 1..6 then 0. *)
Theorem buildDomains_ranked rows :
  ranked 12 (vals r_vehicleType rows) (d_vehicleType (buildDomains rows)) /\
  ranked 12 (vals r_preCrash rows) (d_preCrash (buildDomains rows)) /\
  ranked 6 (vals r_borough rows) (d_borough (buildDomains rows)) /\
  d_hour (buildDomains rows) = map Z.of_nat (List.seq 0 24) /\
  d_dow (buildDomains rows) = [1; 2; 3; 4; 5; 6; 0]%Z.
Proof.
  split; [apply byCount_ranked|]. split; [apply byCount_ranked|].
  split; [apply byCount_ranked|]. split; reflexivity.
Qed.

(** ** The four-record example *)

Lemma read_write_eq w i v :
  (0 <= i)%Z -> (Z.to_nat i < length w)%nat -> read (write w i v) i = v.
Proof.
  intros Hi Hlt. unfold read, write. destruct (Z.ltb_spec i 0); [lia|].
  rewrite list_lookup_insert, decide_True by (split; [reflexivity | exact Hlt]). reflexivity.
Qed.

Lemma read_write_ne w i j v :
  (0 <= i)%Z -> (0 <= j)%Z -> i <> j -> read (write w i v) j = read w j.
Proof.
  intros Hi Hj Hij. unfold read, write. destruct (Z.ltb_spec i 0); [lia|].
  destruct (Z.ltb_spec j 0); [lia|].
  rewrite list_lookup_insert_ne by lia. reflexivity.
Qed.

Lemma lr_real_bounds ep : 0 < lr_real ep <= 1 / 5.
Proof.
  unfold lr_real. pose proof (pos_INR ep) as H. split.
  - apply Rdiv_lt_0_compat; lra.
  - apply (Rmult_le_reg_r (1 + INR ep)); [lra|].
    unfold Rdiv. rewrite Rmult_assoc, Rinv_l by lra. nra.
Qed.

Lemma step_sedan ep st b s t y :
  st3 st b s t ->
  st3 (sgd_step ep st ([272%Z], Fin y))
      (b - lr_real ep * (sigR (b + s) - y))
      (s * (1 - lr_real ep / 1000) - lr_real ep * (sigR (b + s) - y)) t.
Proof.
  intros (Hlen & Hb & Hs & Ht). unfold sgd_step, dot. cbn [fold_left].
  rewrite Hb, Hs. cbn [jadd]. rewrite sigmoid_fin, lr_of_fin. unfold update_w, lambda.
  rewrite Hs. cbn [jsub jadd jneg jmul tw tb]. unfold st3; cbn [tw tb].
  split; [rewrite write_length; exact Hlen|]. split; [unfold lr_real; f_equal; ring|].
  split.
  - rewrite read_write_eq by (try rewrite Hlen; lia). unfold lr_real. f_equal. field.
    pose proof (pos_INR ep). lra.
  - rewrite read_write_ne by lia. exact Ht.
Qed.

Lemma step_truck ep st b s t y :
  st3 st b s t ->
  st3 (sgd_step ep st ([782%Z], Fin y))
      (b - lr_real ep * (sigR (b + t) - y)) s
      (t * (1 - lr_real ep / 1000) - lr_real ep * (sigR (b + t) - y)).
Proof.
  intros (Hlen & Hb & Hs & Ht). unfold sgd_step, dot. cbn [fold_left].
  rewrite Hb, Ht. cbn [jadd]. rewrite sigmoid_fin, lr_of_fin. unfold update_w, lambda.
  rewrite Ht. cbn [jsub jadd jneg jmul tw tb]. unfold st3; cbn [tw tb].
  split; [rewrite write_length; exact Hlen|]. split; [unfold lr_real; f_equal; ring|].
  split.
  - rewrite read_write_ne by lia. exact Hs.
  - rewrite read_write_eq by (try rewrite Hlen; lia). unfold lr_real. f_equal. field.
    pose proof (pos_INR ep). lra.
Qed.

Lemma sigR_gt_half z : 0 < z -> 1 / 2 < sigR z.
Proof.
  intros Hz. unfold sigR. set (x := Rmax (-30) (Rmin 30 z)).
  assert (Hx : 0 < x).
  { unfold x. apply Rlt_le_trans with (Rmin 30 z); [apply Rmin_glb_lt; lra | apply Rmax_r]. }
  assert (He : exp (- x) < 1) by (rewrite <- exp_0; apply exp_increasing; lra).
  pose proof (exp_pos (- x)).
  apply (Rmult_lt_reg_r (1 + exp (- x))); [lra|].
  assert (1 / (1 + exp (- x)) * (1 + exp (- x)) = 1) by (field; lra). lra.
Qed.

Lemma sigR_lt x y : -30 < x < 30 -> x < y -> sigR x < sigR y.
Proof.
  intros Hx Hxy. unfold sigR.
  rewrite (Rmin_right 30 x) by lra. rewrite (Rmax_right (-30) x) by lra.
  assert (Hy : x < Rmax (-30) (Rmin 30 y)).
  { apply Rlt_le_trans with (Rmin 30 y); [apply Rmin_glb_lt; lra | apply Rmax_r]. }
  assert (He : exp (- Rmax (-30) (Rmin 30 y)) < exp (- x)) by (apply exp_increasing; lra).
  pose proof (exp_pos (- x)). pose proof (exp_pos (- Rmax (-30) (Rmin 30 y))).
  unfold Rdiv. rewrite !Rmult_1_l. apply Rinv_lt_contravar; [nra | lra].
Qed.

(** The training data of [example_rows]: Sedan rows hit bucket 272 and
    Truck rows bucket 782. *)
Definition example_data : list (list Z * jsnum) :=
  [([272%Z], Fin 1); ([272%Z], Fin 0); ([782%Z], Fin 1); ([782%Z], Fin 1)].

Lemma example_epoch ep st b s t L U :
  st3 st b s t -> s <= 0 -> 0 <= t -> 0 <= L -> L < b + s -> b <= U ->
  exists b' s' t', st3 (run_epoch example_data st ep) b' s' t' /\
    s' <= 0 /\ 0 < t' /\ L - 2 * lr_real ep < b' + s' /\ b' <= U + 2 * lr_real ep.
Proof.
  intros Hst Hs Ht HL Hbs HU. unfold run_epoch, example_data. cbn [fold_left].
  pose proof (lr_real_bounds ep) as Hlr. set (lr := lr_real ep) in *.
  set (c := 1 - lr / 1000).
  assert (Hc : 0 < c < 1) by (unfold c; lra).
  pose proof (step_sedan ep st b s t 1 Hst) as H1. fold lr in H1. fold c in H1.
  set (p1 := sigR (b + s)) in H1.
  set (b1 := b - lr * (p1 - 1)) in H1. set (s1 := s * c - lr * (p1 - 1)) in H1.
  pose proof (step_sedan ep _ b1 s1 t 0 H1) as H2. fold lr in H2. fold c in H2.
  set (p2 := sigR (b1 + s1)) in H2.
  set (b2 := b1 - lr * (p2 - 0)) in H2. set (s2 := s1 * c - lr * (p2 - 0)) in H2.
  pose proof (step_truck ep _ b2 s2 t 1 H2) as H3. fold lr in H3. fold c in H3.
  set (p3 := sigR (b2 + t)) in H3.
  set (b3 := b2 - lr * (p3 - 1)) in H3. set (t3 := t * c - lr * (p3 - 1)) in H3.
  pose proof (step_truck ep _ b3 s2 t3 1 H3) as H4. fold lr in H4. fold c in H4.
  set (p4 := sigR (b3 + t3)) in H4.
  exists (b3 - lr * (p4 - 1)), s2, (t3 * c - lr * (p4 - 1)). split; [exact H4|].
  assert (Hp1 : 1 / 2 < p1 < 1) by (split; [apply sigR_gt_half; lra | apply sigR_bounds]).
  assert (Hsc : s <= s * c) by nra.
  assert (Hz2 : 0 < b1 + s1) by (unfold b1, s1; nra).
  assert (Hp2 : 1 / 2 < p2 < 1) by (split; [apply sigR_gt_half; lra | apply sigR_bounds]).
  pose proof (sigR_bounds (b2 + t)) as Hp3. fold p3 in Hp3.
  pose proof (sigR_bounds (b3 + t3)) as Hp4. fold p4 in Hp4.
  assert (Hlp : 0 <= lr * (1 - p1)) by (apply Rmult_le_pos; lra).
  assert (Hlpc : lr * (1 - p1) * c <= lr * (1 - p1)).
  { rewrite <- (Rmult_1_r (lr * (1 - p1))) at 2. apply Rmult_le_compat_l; lra. }
  assert (Hlpc0 : 0 <= lr * (1 - p1) * c) by (apply Rmult_le_pos; lra).
  assert (Hlp2 : lr * (1 - p1) < lr * p2) by (apply Rmult_lt_compat_l; lra).
  assert (Hlp2' : lr * p2 < lr) by (rewrite <- (Rmult_1_r lr) at 2; apply Rmult_lt_compat_l; lra).
  assert (Hscc : s <= s * c * c /\ s * c * c <= 0).
  { assert (Hsc0 : s * c <= 0) by nra. split; [|nra].
    assert (Hcc : c * c <= 1) by nra. nra. }
  assert (Hs2 : s2 <= 0).
  { replace s2 with (s * c * c + lr * (1 - p1) * c - lr * p2) by (unfold s2, s1; ring). lra. }
  assert (Hb2 : b2 + s2 > b + s - 2 * lr).
  { replace (b2 + s2) with (b + lr * (1 - p1) - lr * p2 + (s * c * c + lr * (1 - p1) * c - lr * p2))
      by (unfold b2, s2, b1, s1; ring). lra. }
  assert (Hb2u : b2 <= b).
  { replace b2 with (b + lr * (1 - p1) - lr * p2) by (unfold b2, b1; ring). lra. }
  assert (Hl3 : 0 < lr * (1 - p3) < lr).
  { split; [apply Rmult_lt_0_compat; lra|].
    rewrite <- (Rmult_1_r lr) at 2. apply Rmult_lt_compat_l; lra. }
  assert (Hl4 : 0 < lr * (1 - p4) < lr).
  { split; [apply Rmult_lt_0_compat; lra|].
    rewrite <- (Rmult_1_r lr) at 2. apply Rmult_lt_compat_l; lra. }
  assert (Hb3 : b3 = b2 + lr * (1 - p3)) by (unfold b3; ring).
  assert (Htc : 0 <= t * c) by (apply Rmult_le_pos; lra).
  assert (Ht3 : 0 < t3) by (replace t3 with (t * c + lr * (1 - p3)) by (unfold t3; ring); lra).
  assert (Ht3c : 0 < t3 * c) by (apply Rmult_lt_0_compat; lra).
  split; [exact Hs2|]. split; [lra|].
  replace (b3 - lr * (p4 - 1)) with (b2 + lr * (1 - p3) + lr * (1 - p4)) by (rewrite Hb3; ring).
  split; lra.
Qed.

Lemma example_bias0_bounds :
  4 / 5 < ln ((3 / 4 + 1 / 1000000) / (1 + - (3 / 4) + 1 / 1000000)) < 2.
Proof.
  set (q := (3 / 4 + 1 / 1000000) / (1 + - (3 / 4) + 1 / 1000000)).
  assert (Hq : 2999 / 1000 < q < 3) by (unfold q; split; apply Rmult_lt_reg_r with (r := 1 + - (3 / 4) + 1 / 1000000); try lra; unfold Rdiv; field_simplify; lra).
  assert (Hm : exp (- (2 / 5)) * exp (2 / 5) = 1) by (rewrite <- exp_plus, <- exp_0; f_equal; ring).
  pose proof (exp_ineq1 (- (2 / 5)) ltac:(lra)) as Hlo.
  pose proof (exp_pos (2 / 5)).
  assert (H25 : exp (2 / 5) < 5 / 3) by nra.
  assert (H45 : exp (4 / 5) < q).
  { replace (4 / 5) with (2 / 5 + 2 / 5) by field. rewrite exp_plus. nra. }
  pose proof (exp_ineq1 2 ltac:(lra)) as H2.
  split.
  - rewrite <- (ln_exp (4 / 5)). apply ln_increasing; [apply exp_pos | exact H45].
  - rewrite <- (ln_exp 2). apply ln_increasing; lra.
Qed.

Lemma example_indices :
  map (fun r => featureIndices (row_sel r) 1024) example_rows = [[272]; [272]; [782]; [782]]%Z.
Proof. vm_compute. reflexivity. Qed.

Lemma example_query_indices :
  featureIndices (veh_query "Truck") 1024 = [782%Z] /\
  featureIndices (veh_query "Sedan") 1024 = [272%Z].
Proof. split; vm_compute; reflexivity. Qed.

Lemma lr_real_012 : lr_real 0 = 1 / 5 /\ lr_real 1 = 1 / 10 /\ lr_real 2 = 1 / 15.
Proof. unfold lr_real. cbn [INR]. repeat split; field. Qed.

(** C9: on the four records Sedan/injured, Sedan/not injured and twice
    Truck/injured, with the default dimension 1024, training gives base
    rate 0.75, and the trained model predicts a strictly higher probability
    for the query Truck than for the query Sedan. *)
Theorem example_truck_above_sedan :
  exists m, trainEstimator example_rows 1024 = Some m /\ mbaseRate m = Fin (3 / 4) /\
  exists pt ps,
    predictEstimator (Some m) (veh_query "Truck") = Some (Fin pt) /\
    predictEstimator (Some m) (veh_query "Sedan") = Some (Fin ps) /\ ps < pt.
Proof.
  unfold trainEstimator. cbv zeta.
  rewrite nat_match_S by (cbv; discriminate).
  rewrite example_indices, baseRate_eq by discriminate.
  change (length (List.filter injured example_rows)) with 3%nat.
  change (length example_rows) with 4%nat.
  replace (INR 3 / INR 4) with (3 / 4) by (cbn [INR]; field).
  rewrite bias_init_fin by lra.
  change (combine [[272%Z]; [272%Z]; [782%Z]; [782%Z]] (map label example_rows)) with example_data.
  change (seq 0 epochs) with [0; 1; 2]%nat. cbn [fold_left].
  set (b0 := ln ((3 / 4 + 1 / 1000000) / (1 + - (3 / 4) + 1 / 1000000))).
  pose proof example_bias0_bounds as Hb0. fold b0 in Hb0.
  destruct lr_real_012 as (L0 & L1 & L2).
  assert (H0 : st3 (mkTstate (repeat (Fin 0) (Z.to_nat 1024)) (Fin b0)) b0 0 0).
  { split; [apply repeat_length|]. split; [reflexivity|]. split; reflexivity. }
  destruct (example_epoch 0 _ b0 0 0 (4 / 5) 2 H0) as (b1 & s1 & t1 & H1 & Hs1 & Ht1 & HL1 & HU1);
    try lra.
  rewrite L0 in HL1, HU1.
  destruct (example_epoch 1 _ b1 s1 t1 (2 / 5) (12 / 5) H1) as (b2 & s2 & t2 & H2 & Hs2 & Ht2 & HL2 & HU2);
    try lra.
  rewrite L1 in HL2, HU2.
  destruct (example_epoch 2 _ b2 s2 t2 (1 / 5) (13 / 5) H2) as (b3 & s3 & t3 & H3 & Hs3 & Ht3 & HL3 & HU3);
    try lra.
  rewrite L2 in HL3, HU3.
  destruct H3 as (_ & Hb & Hs & Ht).
  eexists. split; [reflexivity|]. split; [reflexivity|].
  destruct example_query_indices as [QT QS].
  exists (sigR (b3 + t3)), (sigR (b3 + s3)). split; [|split].
  - apply predict_fin. cbn [mw mD mb]. rewrite QT. unfold dot. cbn [fold_left].
    rewrite Hb, Ht. reflexivity.
  - apply predict_fin. cbn [mw mD mb]. rewrite QS. unfold dot. cbn [fold_left].
    rewrite Hb, Hs. reflexivity.
  - apply sigR_lt; lra.
Qed.

(** ** Witnesses: each theorem with hypotheses, at a concrete input *)

Lemma predict_trained_in_unit_interval_witness :
  exists m,
    (0 < 1)%Z /\ trainEstimator [veh_row "Sedan" true] 1 = Some m /\
    (forall q : sel, exists p, predictEstimator (Some m) q = Some (Fin p) /\ 0 <= p <= 1) /\
    (forall q : sel, predictEstimator None q = None).
Proof.
  eexists. split; [lia|]. split; [reflexivity|].
  apply (predict_trained_in_unit_interval [veh_row "Sedan" true] 1); [lia | reflexivity].
Defined.

Lemma train_is_reference_sgd_witness :
  (0 < 1024)%Z /\ example_rows <> [] /\
  trainEstimator example_rows 1024 = Some (train_reference example_rows 1024) /\
  is_fin (ref_bias0 example_rows).
Proof.
  split; [lia|]. split; [discriminate|].
  apply (train_is_reference_sgd example_rows 1024); [lia | discriminate].
Defined.

Lemma featureIndices_is_a_set_witness :
  (0 < 1024)%Z /\
  NoDup (featureIndices (veh_query "Sedan") 1024) /\
  (forall lr g w, fold_left (update_w lr g) (featureIndices (veh_query "Sedan") 1024) w
                  = ref_update (featureIndices (veh_query "Sedan") 1024) lr g w).
Proof.
  split; [lia|]. apply (featureIndices_is_a_set (veh_query "Sedan") 1024). lia.
Defined.

Lemma greedyChain_monotone_witness :
  jle (Fin 0) (nullish (o_minDelta (mkOpts (Some 5%nat) (Some 30%Z) (Some (Fin 0))))
                       (Fin (1 / 1000))) = true /\
  forall k a b,
    nth_error (greedyChain example_rows None (buildDomains example_rows) "worst"%string
                 (mkOpts (Some 5%nat) (Some 30%Z) (Some (Fin 0)))) k = Some a ->
    nth_error (greedyChain example_rows None (buildDomains example_rows) "worst"%string
                 (mkOpts (Some 5%nat) (Some 30%Z) (Some (Fin 0)))) (S k) = Some b ->
    ("worst"%string = "worst"%string -> num_le (sp a) (sp b)) /\
    ("worst"%string <> "worst"%string -> num_le (sp b) (sp a)).
Proof.
  assert (H : jle (Fin 0) (nullish (o_minDelta (mkOpts (Some 5%nat) (Some 30%Z) (Some (Fin 0))))
                                   (Fin (1 / 1000))) = true)
    by (cbn [nullish o_minDelta]; apply jle_fin; lra).
  split; [exact H|].
  exact (greedyChain_monotone example_rows None (buildDomains example_rows) "worst"%string
           (mkOpts (Some 5%nat) (Some 30%Z) (Some (Fin 0))) H).
Defined.

Lemma hash_and_indices_in_bounds_witness :
  (0 < 1024)%Z /\
  (forall key : jsstr, (0 <= hashStr key 1024 < 1024)%Z) /\
  (forall (c : sel) (i : Z), In i (featureIndices c 1024) -> (0 <= i < 1024)%Z) /\
  (forall ep st xy, length (tw st) = Z.to_nat 1024 -> Forall (in_range 1024) (fst xy) ->
     length (tw (sgd_step ep st xy)) = Z.to_nat 1024) /\
  (forall rows m, trainEstimator rows 1024 = Some m ->
     mD m = 1024%Z /\ length (mw m) = Z.to_nat 1024).
Proof.
  split; [lia|]. apply (hash_and_indices_in_bounds 1024). lia.
Defined.

(** ** Further properties of the code *)


Lemma clamp_opp z : Rmax (-30) (Rmin 30 (- z)) = - Rmax (-30) (Rmin 30 z).
Proof.
  unfold Rmin, Rmax. destruct (Rle_dec 30 (- z)), (Rle_dec 30 z);
  repeat match goal with |- context [Rle_dec ?a ?b] => destruct (Rle_dec a b) end; lra.
Qed.


(** X3: [sigmoid] clamps its input to [-30, 30]: every input from 30 up,
    and +Infinity, gives [sigmoid(30)]; every input from -30 down, and
    -Infinity, gives [sigmoid(-30)]; NaN gives NaN. *)
Theorem sigmoid_saturates :
  (forall z, 30 <= z -> sigmoid (Fin z) = sigmoid (Fin 30)) /\
  sigmoid PInf = sigmoid (Fin 30) /\
  (forall z, z <= -30 -> sigmoid (Fin z) = sigmoid (Fin (-30))) /\
  sigmoid NInf = sigmoid (Fin (-30)) /\
  sigmoid NaN = NaN.
Proof.
  split; [|split; [|split; [|split]]].
  - intros z Hz. rewrite !sigmoid_fin. unfold sigR. f_equal.
    rewrite (Rmin_left 30 z) by lra. rewrite (Rmin_right 30 30) by lra. reflexivity.
  - unfold sigmoid. replace (jmin (Fin 30) PInf) with (Fin 30) by reflexivity.
    rewrite jmin_fin, Rmin_right by lra. reflexivity.
  - intros z Hz. rewrite !sigmoid_fin. unfold sigR. f_equal.
    rewrite (Rmin_right 30 z) by lra. rewrite (Rmin_right 30 (-30)) by lra.
    rewrite (Rmax_left (-30) z) by lra. rewrite (Rmax_right (-30) (-30)) by lra. reflexivity.
  - unfold sigmoid. replace (jmax (Fin (-30)) (jmin (Fin 30) NInf)) with (Fin (-30)) by reflexivity.
    rewrite jmin_fin, Rmin_right by lra. rewrite jmax_fin, Rmax_right by lra. reflexivity.
  - reflexivity.
Qed.

Lemma drop_ws_suffix s : exists p, s = p ++ drop_ws s.
Proof.
  induction s as [|c s IH]; [exists []; reflexivity|]. cbn.
  destruct (is_ws c); [destruct IH as [p Hp]; exists (c :: p); cbn; f_equal; exact Hp|].
  exists []. reflexivity.
Qed.

Lemma drop_ws_head s : match drop_ws s with c :: _ => is_ws c = false | [] => True end.
Proof.
  induction s as [|c s IH]; [exact I|]. cbn. destruct (is_ws c) eqn:E; [exact IH | exact E].
Qed.

Lemma drop_ws_id s : match s with c :: _ => is_ws c = false | [] => True end -> drop_ws s = s.
Proof. destruct s as [|c s]; [reflexivity|]. cbn. intros ->. reflexivity. Qed.

Lemma trim_trim s : trim (trim s) = trim s.
Proof.
  unfold trim. set (Y := drop_ws s). set (X := drop_ws (rev Y)).
  assert (HX : drop_ws X = X) by (apply drop_ws_id, drop_ws_head).
  assert (Ht : drop_ws (rev X) = rev X).
  { apply drop_ws_id. destruct (rev X) as [|c t] eqn:E; [exact I|].
    destruct (drop_ws_suffix (rev Y)) as [P HP]. fold X in HP.
    assert (HY : Y = c :: rev (P ++ rev t)).
    { rewrite <- (rev_involutive Y), HP, <- (rev_involutive X), E. cbn.
      rewrite !rev_app_distr, !rev_involutive. cbn. reflexivity. }
    pose proof (drop_ws_head s) as Hh. fold Y in Hh. rewrite HY in Hh. exact Hh. }
  rewrite Ht, rev_involutive, HX. reflexivity.
Qed.

(** X4: [cleanCat] is idempotent, and a value it keeps is already trimmed. *)
Theorem cleanCat_idempotent (o : option jsstr) :
  cleanCat (cleanCat o) = cleanCat o /\
  (forall t, cleanCat o = Some t -> trim t = t).
Proof.
  destruct o as [s|]; [|split; [reflexivity | intros ? ?; discriminate]].
  unfold cleanCat at 2 3 4. cbv zeta.
  destruct (bool_decide (trim s = []) || bool_decide (trim s = u "Unspecified")
            || bool_decide (trim s = u "NA") || bool_decide (trim s = u "Unknown")) eqn:E.
  - split; [reflexivity | intros ? ?; discriminate].
  - split.
    + unfold cleanCat. cbv zeta. rewrite trim_trim, E. reflexivity.
    + intros t Ht. injection Ht as <-. apply trim_trim.
Qed.

(** X5: the value filter of the [byCount] helper of [buildDomains] and
    [populateEstimatorOptions] ([(r[key] || '').trim()] and the checks
    after it) keeps exactly what [cleanCat] keeps. *)
Theorem byCount_filter_is_cleanCat (o : option jsstr) : cleaned o = cleanCat o.
Proof. destruct o as [s|]; reflexivity. Qed.

(** X6: for any [toLowerCase] that maps "SUV" to "suv",
    [normalizeVehicleLabel] is idempotent: a label it produces is left as
    it is. *)
Theorem normalizeVehicleLabel_idempotent (lower : jsstr -> jsstr) :
  lower (u "SUV") = u "suv" ->
  forall o, normalizeVehicleLabel lower (normalizeVehicleLabel lower o)
            = normalizeVehicleLabel lower o.
Proof.
  intros Hlow o. destruct o as [s|]; [|reflexivity].
  unfold normalizeVehicleLabel at 2 3. cbv zeta.
  remember (trim s) as t eqn:Ht.
  assert (Htt : trim t = t) by (rewrite Ht; apply trim_trim).
  destruct (bool_decide (t = [])) eqn:E0; [reflexivity|].
  destruct (includes (lower t) (u "station wagon") || includes (lower t) (u "sport utility")
            || includes (lower t) (u "sport-utility")
            || (includes (lower t) (u "sport") && includes (lower t) (u "utility"))
            || includes (lower t) (u "suv")) eqn:E1.
  - unfold normalizeVehicleLabel. change (trim (u "SUV")) with (u "SUV").
    rewrite Hlow. reflexivity.
  - unfold normalizeVehicleLabel. cbv zeta. rewrite Htt, E0, E1. reflexivity.
Qed.

Lemma filter_idem {A} (f : A -> bool) l : List.filter f (List.filter f l) = List.filter f l.
Proof.
  induction l as [|x l IH]; [reflexivity|]. cbn.
  destruct (f x) eqn:E; cbn; [rewrite E, IH | rewrite IH]; reflexivity.
Qed.

Lemma at_hour_true {point} (p_hour : point -> option jsnum) h p :
  at_hour p_hour h p = true <-> exists pt, p = Some pt /\ p_hour pt = Some (Fin h).
Proof.
  unfold at_hour. destruct p as [pt|]; [|split; [discriminate | intros (? & ? & _); discriminate]].
  destruct (p_hour pt) as [[a| | |]|] eqn:E;
    try (split; [discriminate | intros (pt' & Hp & Hh); injection Hp as <-; congruence]).
  destruct (Req_EM_T a h) as [->|Hne].
  - split; [intros _; exists pt; split; [reflexivity | exact E] | reflexivity].
  - split; [discriminate|]. intros (pt' & Hp & Hh). injection Hp as <-. congruence.
Qed.


Lemma filter_length_le {A} (p : A -> bool) (l : list A) : (length (List.filter p l) <= length l)%nat.
Proof. induction l as [|x l IH]; [reflexivity|]. cbn. destruct (p x); cbn; lia. Qed.

Lemma supportCount_le rows s : (supportCount rows s <= length rows)%nat.
Proof. apply filter_length_le. Qed.

(** X8: [supportCount] adds up over a split of the records, never exceeds
    the number of records, and with no constraint counts every record. *)
Theorem supportCount_additive (rows1 rows2 : list row) (s : sel) :
  supportCount (rows1 ++ rows2) s = (supportCount rows1 s + supportCount rows2 s)%nat /\
  (supportCount rows1 s <= length rows1)%nat /\
  supportCount rows1 empty_sel = length rows1.
Proof.
  split; [|split; [apply supportCount_le | apply supportCount_empty]].
  unfold supportCount. rewrite List.filter_app, length_app. reflexivity.
Qed.

(** X9: constraining one more field of a selection (one that is still
    [null]) never increases the support, whatever the value. *)
Theorem supportCount_narrowing (rows : list row) (s : sel) (f : field) (v : value) :
  sel_is_set s f = false ->
  (supportCount rows (sel_set s f v) <= supportCount rows s)%nat.
Proof.
  intros Hs.
  assert (Hfit : value_fits f v \/ sel_set s f v = s) by (destruct f, v; cbn; auto).
  destruct Hfit as [Hfit | ->]; [apply supportCount_set; assumption | reflexivity].
Qed.

(** X10: an empty string in a string field of the selection constrains
    nothing: [supportCount] counts as if the field were [null]. *)
Theorem supportCount_empty_string (rows : list row) (s : sel) :
  supportCount rows (mkSel (Some []) (preCrash s) (borough s) (hour s) (dow s))
  = supportCount rows (mkSel None (preCrash s) (borough s) (hour s) (dow s)) /\
  supportCount rows (mkSel (vehicleType s) (Some []) (borough s) (hour s) (dow s))
  = supportCount rows (mkSel (vehicleType s) None (borough s) (hour s) (dow s)) /\
  supportCount rows (mkSel (vehicleType s) (preCrash s) (Some []) (hour s) (dow s))
  = supportCount rows (mkSel (vehicleType s) (preCrash s) None (hour s) (dow s)).
Proof. repeat split; reflexivity. Qed.

Lemma add_key_le D k v idx n :
  (length idx <= n)%nat -> (length (add_key D k v idx) <= S n)%nat.
Proof.
  intros H. unfold add_key, set_add.
  destruct (is_skipped v); [lia|]. destruct (existsb _ _); [lia|].
  rewrite length_app. cbn. lia.
Qed.

(** X11: a query activates at most 8 weight buckets (three fields, hour,
    day and three pairs), and the empty query activates none, so its
    score is the bias alone. *)
Theorem featureIndices_at_most_8 (c : sel) (D : Z) :
  (length (featureIndices c D) <= 8)%nat /\ featureIndices empty_sel D = [].
Proof.
  split; [|reflexivity].
  unfold featureIndices. cbv zeta.
  repeat case_match; repeat (apply add_key_le); cbn; lia.
Qed.

(** ** Buckets that no record activates *)

Lemma read_write_other w i j v : i <> j -> read (write w i v) j = read w j.
Proof.
  intros Hij. destruct (Z.ltb_spec i 0) as [Hi|Hi].
  - unfold write. destruct (Z.ltb_spec i 0); [reflexivity | lia].
  - destruct (Z.ltb_spec j 0) as [Hj|Hj].
    + unfold read. destruct (Z.ltb_spec j 0); [reflexivity | lia].
    + apply read_write_ne; assumption.
Qed.

Lemma update_fold_read_other lr g idx w j :
  ~ In j idx -> read (fold_left (update_w lr g) idx w) j = read w j.
Proof.
  revert w. induction idx as [|i idx IH]; intros w Hn; [reflexivity|]. cbn [fold_left].
  rewrite IH by (intros H; apply Hn; right; exact H).
  unfold update_w. apply read_write_other. intros ->. apply Hn. left. reflexivity.
Qed.

Lemma run_epoch_read_other data st ep j :
  Forall (fun xy => ~ In j (fst xy)) data ->
  read (tw (run_epoch data st ep)) j = read (tw st) j.
Proof.
  intros Hd. unfold run_epoch. revert st.
  induction data as [|[idx y] data IHd]; intros st; [reflexivity|].
  inversion Hd as [|? ? Hn Hrest]; subst. cbn [fold_left]. rewrite (IHd Hrest).
  unfold sgd_step. cbn [tw]. apply update_fold_read_other. exact Hn.
Qed.

Lemma repeat_lookup {A} (x : A) n i : (i < n)%nat -> repeat x n !! i = Some x.
Proof.
  revert i. induction n as [|n IH]; intros i Hi; [lia|].
  destruct i as [|i]; [reflexivity|]. cbn. apply IH. lia.
Qed.

Lemma train_untouched rows D m j :
  trainEstimator rows D = Some m -> (0 <= j < D)%Z ->
  (forall r, In r rows -> ~ In j (featureIndices (row_sel r) D)) ->
  mD m = D /\ read (mw m) j = Fin 0.
Proof.
  intros Ht Hj Hn. unfold trainEstimator in Ht. cbv zeta in Ht.
  revert Ht. destruct (length rows); [discriminate|]. intros Ht. injection Ht as <-. cbn [mD mw].
  split; [reflexivity|].
  assert (Hd : Forall (fun xy => ~ In j (fst xy))
                 (combine (map (fun r => featureIndices (row_sel r) D) rows) (map label rows))).
  { apply List.Forall_forall. intros [idx y] Hin. cbn [fst].
    apply in_combine_l, in_map_iff in Hin as (r & <- & Hr). apply Hn. exact Hr. }
  rewrite !(run_epoch_read_other _ _ _ _ Hd).
  cbn [tw]. unfold read. destruct (Z.ltb_spec j 0); [lia|].
  rewrite repeat_lookup by lia. reflexivity.
Qed.

(** X12: after training, the weight of a bucket in [0, D) that no record's
    features hit is still 0 (the L2 decay only touches active weights). *)
Theorem train_unused_weight_zero (rows : list row) (D : Z) (m : model) (j : Z) :
  trainEstimator rows D = Some m -> (0 <= j < D)%Z ->
  (forall r, In r rows -> ~ In j (featureIndices (row_sel r) D)) ->
  read (mw m) j = Fin 0.
Proof. intros Ht Hj Hn. exact (proj2 (train_untouched rows D m j Ht Hj Hn)). Qed.

Lemma dot_zero w idx b : Forall (fun i => read w i = Fin 0) idx -> dot w idx b = b.
Proof.
  unfold dot. revert b. induction idx as [|i idx IH]; intros b H; [reflexivity|].
  inversion H as [|? ? Hi Hrest]; subst. cbn [fold_left]. rewrite Hi, jadd_0_r. apply IH. exact Hrest.
Qed.

(** X13: a query none of whose buckets is hit by any training record gets
    the prediction of the empty query, [sigmoid(b)] clamped: the fields
    unseen in training do not move it. *)
Theorem predict_unseen_is_baseline (rows : list row) (D : Z) (m : model) (q : sel) :
  (0 < D)%Z -> trainEstimator rows D = Some m ->
  (forall j, In j (featureIndices q D) -> forall r, In r rows -> ~ In j (featureIndices (row_sel r) D)) ->
  predictEstimator (Some m) q = predictEstimator (Some m) empty_sel.
Proof.
  intros HD Ht Hn.
  assert (HmD : mD m = D).
  { unfold trainEstimator in Ht. cbv zeta in Ht. destruct (length rows); [discriminate|].
    injection Ht as <-. reflexivity. }
  unfold predictEstimator. rewrite HmD. replace (featureIndices empty_sel D) with (@nil Z) by reflexivity.
  rewrite dot_zero; [reflexivity|].
  pose proof (featureIndices_range q D HD) as Hr. apply List.Forall_forall. intros j Hj.
  apply (train_untouched rows D m j Ht); [|apply Hn; exact Hj].
  rewrite List.Forall_forall in Hr. apply Hr. exact Hj.
Qed.

(** ** Chains that stop at the Start step, and the links of a chain *)

Lemma search_none rows m d worst minSupport s p :
  (forall f v, sel_is_set s f = false -> In v (domain_values d f) ->
     (Z.of_nat (supportCount rows (sel_set s f v)) < minSupport)%Z \/
     predictEstimator m (sel_set s f v) = None) ->
  search rows m d worst minSupport s p = None.
Proof.
  intros H. unfold search.
  apply (fold_left_inv (fun best => best = None)); [|reflexivity].
  intros best f _ ->. destruct (sel_is_set s f) eqn:Hs; [reflexivity|].
  apply (fold_left_inv (fun best => best = None)); [|reflexivity].
  intros best v Hv ->. unfold consider.
  destruct (H f v Hs Hv) as [Hlt|Hp].
  - apply Z.ltb_lt in Hlt. rewrite Hlt. reflexivity.
  - destruct (Z.ltb _ _); [reflexivity|]. rewrite Hp. reflexivity.
Qed.

Lemma chain_loop_none rows m d worst minSupport minDelta fuel s p steps :
  search rows m d worst minSupport s p = None ->
  chain_loop rows m d worst minSupport minDelta fuel s p steps = steps.
Proof. intros H. destruct fuel; cbn [chain_loop]; [reflexivity|]. rewrite H. reflexivity. Qed.

(** X14: without a model, [greedyChain] returns the Start step alone, with
    probability 0 and the number of records as support. *)
Theorem greedyChain_no_model (rows : list row) (d : domains) (direction : string)
        (opts : chain_opts) :
  greedyChain rows None d direction opts = [mkStep None None (Fin 0) (length rows) None].
Proof.
  unfold greedyChain. cbv zeta. cbn [predictEstimator nullish].
  apply chain_loop_none, search_none. intros f v _ _. right. reflexivity.
Qed.

(** X15: with fewer records than [minSupport], no candidate passes the
    support filter, and [greedyChain] returns the Start step alone. *)
Theorem greedyChain_too_few_rows (rows : list row) (m : option model) (d : domains)
        (direction : string) (opts : chain_opts) :
  (Z.of_nat (length rows) < nullish (o_minSupport opts) 80)%Z ->
  greedyChain rows m d direction opts =
  [mkStep None None (nullish (predictEstimator m empty_sel)
                             (match m with Some mm => mbaseRate mm | None => Fin 0 end))
          (length rows) None].
Proof.
  intros Hlt. unfold greedyChain. cbv zeta.
  apply chain_loop_none, search_none. intros f v _ _. left.
  pose proof (supportCount_le rows (sel_set empty_sel f v)). lia.
Qed.

Lemma search_in_domain rows m d worst minSupport s p c :
  search rows m d worst minSupport s p = Some c -> In (cvalue c) (domain_values d (cfield c)).
Proof.
  unfold search. revert c.
  apply (fold_left_inv (fun best => forall c, best = Some c -> In (cvalue c) (domain_values d (cfield c))));
    [|discriminate].
  intros best f _ Hbest. destruct (sel_is_set s f); [exact Hbest|].
  apply fold_left_inv; [|exact Hbest].
  intros best' v Hv Hbest' c. unfold consider.
  destruct (Z.ltb _ _); [apply Hbest'|].
  destruct (predictEstimator m (sel_set s f v)) as [q|]; [|apply Hbest'].
  assert (Hnew : forall n dl sc, Some (mkCand f v q n dl sc) = Some c ->
                                 In (cvalue c) (domain_values d (cfield c)))
    by (intros n dl sc Hc; injection Hc as <-; exact Hv).
  destruct best' as [b|]; [|apply Hnew].
  destruct (jlt (cscore b) _); [apply Hnew | apply Hbest'].
Qed.

Lemma nth_error_snoc_last {A} (l : list A) (x : A) : nth_error (l ++ [x]) (length l) = Some x.
Proof. rewrite nth_error_app2 by lia. rewrite Nat.sub_diag. reflexivity. Qed.

Lemma chain_links_step rows m d worst minSupport s p steps c :
  sel_of steps = s -> sp (List.last steps dummy_step) = p -> steps <> [] ->
  chain_links rows m d steps ->
  search rows m d worst minSupport s p = Some c ->
  chain_links rows m d
    (steps ++ [mkStep (Some (cfield c)) (Some (cvalue c)) (cp c) (cn c) (Some (cdelta c))]).
Proof.
  intros Hsel Hp Hne Hl Hs k a b Ha Hb.
  set (x := mkStep (Some (cfield c)) (Some (cvalue c)) (cp c) (cn c) (Some (cdelta c))) in *.
  destruct (Nat.lt_ge_cases (S k) (length steps)) as [Hlt|Hge].
  - rewrite nth_error_app1 in Ha by lia. rewrite nth_error_app1 in Hb by lia.
    assert (Hf : firstn (S (S k)) (steps ++ [x]) = firstn (S (S k)) steps).
    { rewrite firstn_app. replace (S (S k) - length steps)%nat with 0%nat by lia.
      cbn. apply app_nil_r. }
    rewrite Hf. exact (Hl k a b Ha Hb).
  - assert (Hk : S k = length steps).
    { destruct (Nat.eq_dec (S k) (length steps)) as [E|E]; [exact E|].
      exfalso. assert (nth_error (steps ++ [x]) (S k) = None) as Hn
        by (apply nth_error_None; rewrite length_app; cbn; lia). congruence. }
    rewrite Hk, nth_error_snoc_last in Hb. injection Hb as <-.
    destruct (exists_last Hne) as (pre & y & Ey).
    assert (Ha' : a = y).
    { rewrite nth_error_app1 in Ha by lia. rewrite Ey in Ha.
      assert (k = length pre) by (rewrite Ey, length_app in Hk; cbn in Hk; lia). subst k.
      rewrite nth_error_snoc_last in Ha. congruence. }
    subst a.
    assert (Hpy : sp y = p) by (rewrite <- Hp, Ey, last_last; reflexivity).
    destruct (search_ok _ _ _ _ _ _ _ _ Hs) as (_ & _ & Hn & _ & Hdelta & Hpred).
    assert (Hall : firstn (S (S k)) (steps ++ [x]) = steps ++ [x])
      by (apply firstn_all2; rewrite length_app; cbn; lia).
    assert (Hso : sel_of (steps ++ [x]) = sel_set s (cfield c) (cvalue c))
      by (unfold sel_of; rewrite fold_left_app; fold (sel_of steps); rewrite Hsel; reflexivity).
    rewrite Hall, Hso. exists (cfield c), (cvalue c). unfold x. cbn [sfield svalue sn sp sdelta].
    split; [reflexivity|]. split; [reflexivity|]. split; [eapply search_in_domain; exact Hs|].
    split; [exact Hn|]. split; [exact Hpred|]. rewrite Hdelta, Hpy. reflexivity.
Qed.

Lemma links_inv_step rows m d worst minSupport s p steps c :
  (sel_of steps = s /\ sp (List.last steps dummy_step) = p /\ steps <> [] /\
   chain_links rows m d steps) ->
  search rows m d worst minSupport s p = Some c ->
  let steps' := steps ++ [mkStep (Some (cfield c)) (Some (cvalue c)) (cp c) (cn c) (Some (cdelta c))] in
  sel_of steps' = sel_set s (cfield c) (cvalue c) /\ sp (List.last steps' dummy_step) = cp c /\
  steps' <> [] /\ chain_links rows m d steps'.
Proof.
  intros (Hs & Hp & Hne & Hl) Hsr steps'. split; [|split; [|split]].
  - unfold steps', sel_of. rewrite fold_left_app. fold (sel_of steps). rewrite Hs. reflexivity.
  - unfold steps'. rewrite last_last. reflexivity.
  - unfold steps'. intros E. symmetry in E. exact (app_cons_not_nil _ _ _ E).
  - eapply chain_links_step; eassumption.
Qed.

(** X16: every step of a chain after the Start one assigns a field a value
    from that field's domain; its support and probability are
    [supportCount] and [predictEstimator] of the selection made by the
    steps up to and including it, and its delta is its probability minus
    that of the step before. *)
Theorem greedyChain_links (rows : list row) (m : option model) (d : domains)
        (direction : string) (opts : chain_opts) (k : nat) :
  match nth_error (greedyChain rows m d direction opts) k,
        nth_error (greedyChain rows m d direction opts) (S k) with
  | Some a, Some b =>
      exists f v, sfield b = Some f /\ svalue b = Some v /\ In v (domain_values d f) /\
        sn b = supportCount rows (sel_of (firstn (S (S k)) (greedyChain rows m d direction opts))) /\
        predictEstimator m (sel_of (firstn (S (S k)) (greedyChain rows m d direction opts)))
          = Some (sp b) /\
        sdelta b = Some (jsub (sp b) (sp a))
  | _, _ => True
  end.
Proof.
  enough (H : chain_links rows m d (greedyChain rows m d direction opts)).
  { destruct (nth_error _ k) as [a|] eqn:Ha; [|exact I].
    destruct (nth_error _ (S k)) as [b|] eqn:Hb; [|exact I].
    exact (H k a b Ha Hb). }
  unfold greedyChain. cbv zeta.
  match goal with |- context [chain_loop ?r ?mm ?dd ?w ?ms ?md ?fuel ?s0 ?p0 ?st] =>
    destruct (chain_loop_ind r mm dd w ms md
                (fun s p steps => sel_of steps = s /\ sp (List.last steps dummy_step) = p /\
                                  steps <> [] /\ chain_links r mm dd steps)
                (fun s p steps c HI Hsr _ => links_inv_step _ _ _ _ _ _ _ _ _ HI Hsr)
                fuel s0 p0 st) as (s' & p' & _ & _ & _ & Hl) end.
  - split; [reflexivity|]. split; [reflexivity|]. split; [discriminate|].
    intros k' a b _ Hb. destruct k'; discriminate.
  - exact Hl.
Qed.

(** ** Domains and estimator options *)

Lemma vals_in key arr v : In v (vals key arr) -> exists r, In r arr /\ cleaned (key r) = Some v.
Proof.
  induction arr as [|r arr IH]; [intros []|]. cbn [vals].
  destruct (cleaned (key r)) eqn:E.
  - intros [<-|H]; [exists r; split; [left; reflexivity | exact E]|].
    destruct (IH H) as (r' & Hr' & Hc). exists r'. split; [right; exact Hr' | exact Hc].
  - intros H. destruct (IH H) as (r' & Hr' & Hc). exists r'. split; [right; exact Hr' | exact Hc].
Qed.

Lemma byCount_perm arr key : Permutation (byCount arr key) (first_seen (vals key arr)).
Proof.
  unfold byCount. rewrite count_map_counts, <- counts_fst.
  apply Permutation_map, sort_desc_perm.
Qed.

Lemma byCount_top arr key k :
  NoDup (firstn k (byCount arr key)) /\
  (forall v, In v (firstn k (byCount arr key)) ->
     exists r, In r arr /\ cleaned (key r) = Some v).
Proof.
  pose proof (byCount_perm arr key) as Hp. split.
  - assert (Hnd : NoDup (byCount arr key))
      by (rewrite Hp; apply first_seen_nodup).
    rewrite <- (firstn_skipn k (byCount arr key)) in Hnd. apply NoDup_app in Hnd as [Hnd _].
    exact Hnd.
  - intros v Hv. apply vals_in, (first_seen_in (vals key arr) v).
    eapply Permutation_in; [exact Hp|]. rewrite <- (firstn_skipn k (byCount arr key)).
    apply in_or_app. left. exact Hv.
Qed.

(** X17: each ranked domain of [buildDomains] lists distinct values, and
    each of them is the trimmed, non-placeholder value of that field in
    some record. *)
Theorem buildDomains_values (rows : list row) :
  NoDup (d_vehicleType (buildDomains rows)) /\ NoDup (d_preCrash (buildDomains rows)) /\
  NoDup (d_borough (buildDomains rows)) /\
  (forall v, In v (d_vehicleType (buildDomains rows)) ->
     exists r, In r rows /\ cleanCat (r_vehicleType r) = Some v) /\
  (forall v, In v (d_preCrash (buildDomains rows)) ->
     exists r, In r rows /\ cleanCat (r_preCrash r) = Some v) /\
  (forall v, In v (d_borough (buildDomains rows)) ->
     exists r, In r rows /\ cleanCat (r_borough r) = Some v).
Proof.
  destruct (byCount_top rows r_vehicleType 12) as [H1 H1'].
  destruct (byCount_top rows r_preCrash 12) as [H2 H2'].
  destruct (byCount_top rows r_borough 6) as [H3 H3'].
  cbn [d_vehicleType d_preCrash d_borough buildDomains].
  split; [exact H1|]. split; [exact H2|]. split; [exact H3|].
  split; [|split]; intros v Hv;
    [destruct (H1' v Hv) as (r & Hr & Hc) | destruct (H2' v Hv) as (r & Hr & Hc)
    | destruct (H3' v Hv) as (r & Hr & Hc)];
    exists r; (split; [exact Hr|]); destruct (_ r); exact Hc.
Qed.

(** X18: the domains the risk chains search are prefixes of the option
    lists of the estimator's selects: the first 12 of its 25 vehicle types
    and pre-crash actions, the first 6 of its 10 boroughs, and the same
    hours and days. *)
Theorem buildDomains_prefix_of_options (rows : list row) :
  d_vehicleType (buildDomains rows) = firstn 12 (d_vehicleType (estimator_options rows)) /\
  d_preCrash (buildDomains rows) = firstn 12 (d_preCrash (estimator_options rows)) /\
  d_borough (buildDomains rows) = firstn 6 (d_borough (estimator_options rows)) /\
  d_hour (buildDomains rows) = d_hour (estimator_options rows) /\
  d_dow (buildDomains rows) = d_dow (estimator_options rows).
Proof.
  cbn [buildDomains estimator_options d_vehicleType d_preCrash d_borough d_hour d_dow].
  rewrite !firstn_firstn. repeat split; reflexivity.
Qed.

(** ** Witnesses of the further properties *)


Lemma normalizeVehicleLabel_idempotent_witness :
  ascii_lower (u "SUV") = u "suv" /\
  forall o, normalizeVehicleLabel ascii_lower (normalizeVehicleLabel ascii_lower o)
            = normalizeVehicleLabel ascii_lower o.
Proof.
  split; [reflexivity|]. apply normalizeVehicleLabel_idempotent. reflexivity.
Defined.

Lemma supportCount_narrowing_witness :
  sel_is_set empty_sel FvehicleType = false /\
  (supportCount example_rows (sel_set empty_sel FvehicleType (VStr (u "Sedan")))
   <= supportCount example_rows empty_sel)%nat.
Proof.
  split; [reflexivity|]. apply supportCount_narrowing. reflexivity.
Defined.

Lemma train_unused_weight_zero_witness :
  exists m,
    trainEstimator [veh_row "Sedan" true] 8 = Some m /\ (0 <= 6 < 8)%Z /\
    (forall r, In r [veh_row "Sedan" true] -> ~ In 6%Z (featureIndices (row_sel r) 8)) /\
    read (mw m) 6 = Fin 0.
Proof.
  eexists. split; [reflexivity|].
  assert (Hn : forall r, In r [veh_row "Sedan" true] -> ~ In 6%Z (featureIndices (row_sel r) 8)).
  { intros r [<-|[]]. vm_compute. intros [H|[]]. discriminate. }
  split; [lia|]. split; [exact Hn|].
  apply (train_unused_weight_zero [veh_row "Sedan" true] 8); [reflexivity | lia | exact Hn].
Defined.

Lemma predict_unseen_is_baseline_witness :
  exists m,
    (0 < 8)%Z /\ trainEstimator [veh_row "Sedan" true] 8 = Some m /\
    (forall j, In j (featureIndices (veh_query "Truck") 8) ->
       forall r, In r [veh_row "Sedan" true] -> ~ In j (featureIndices (row_sel r) 8)) /\
    predictEstimator (Some m) (veh_query "Truck") = predictEstimator (Some m) empty_sel.
Proof.
  eexists. split; [lia|]. split; [reflexivity|].
  assert (Hn : forall j, In j (featureIndices (veh_query "Truck") 8) ->
       forall r, In r [veh_row "Sedan" true] -> ~ In j (featureIndices (row_sel r) 8)).
  { intros j Hj r [<-|[]].
    assert (E : featureIndices (veh_query "Truck") 8 = [6%Z]) by (vm_compute; reflexivity).
    rewrite E in Hj. destruct Hj as [<-|[]]. vm_compute. intros [H|[]]. discriminate. }
  split; [exact Hn|].
  apply (predict_unseen_is_baseline [veh_row "Sedan" true] 8); [lia | reflexivity | exact Hn].
Defined.

Lemma greedyChain_too_few_rows_witness :
  (Z.of_nat (length example_rows) < nullish (o_minSupport (mkOpts None None None)) 80)%Z /\
  greedyChain example_rows None (buildDomains example_rows) "worst"%string (mkOpts None None None)
  = [mkStep None None (Fin 0) 4 None].
Proof.
  assert (H : (Z.of_nat (length example_rows) < nullish (o_minSupport (mkOpts None None None)) 80)%Z)
    by (vm_compute; reflexivity).
  split; [exact H|].
  exact (greedyChain_too_few_rows example_rows None (buildDomains example_rows) "worst"%string
           (mkOpts None None None) H).
Defined.
